(** * MyPaint document model: strokes, layers and the snapshot cache

    A shallow embedding of [document.py] (class [Stroke], function
    [strokes_from_to], class [Layer]) and the verification of its
    re-rendering engine.

    Python objects are mutable and compared by identity, so the embedding
    keeps an explicit store: [Stroke] instances and Python lists live in
    finite maps indexed by object references, and every method is a
    computation in a small state-and-exception monad over that store. *)

From stdpp Require Import base gmap strings list sorting.
From Stdlib Require Import ZArith Lia.

Set Default Proof Using "Type".
Open Scope Z_scope.

(** ** Values and the collaborators *)

(** Object references (the identity of a Python object). *)
Abbreviation ref := nat (only parsing).

(** The values held by the attributes of a [Stroke]. *)
Inductive Value : Type :=
| VNone
| VBool (b : bool)
| VInt (n : Z)
| VStr (s : string)
| VObj (r : ref)
| VRect (x y w h : Z).

(** Python truth value of an attribute. *)
Definition truthy (v : Value) : bool :=
  match v with
  | VNone => false
  | VBool b => b
  | VInt n => negb (n =? 0)
  | VStr s => negb (String.eqb s "")
  | VObj _ => true
  | VRect _ _ _ _ => true
  end.

(** A layer background: [None], or a reference to the pixbuf object.
    Backgrounds are compared with [!=], which on pixbuf objects is identity;
    a pixbuf is a true value in an [if]. *)
Abbreviation Background := (option nat) (only parsing).

(** The drawing surface ([tilelib.TiledLayer], driven through the brush
    engine) is outside this file; the layer uses it through these
    operations only. [surface_replay] stands for what [Stroke.render] does
    to the pixels: a temporary brush is loaded with the settings, state and
    seed of the stroke, the recorded events are replayed, and the previous
    brush is put back. *)
Class SurfaceOps : Type := {
  Surface : Type;
  Snapshot : Type;
  surface_new : Surface;
  surface_clear : Surface -> Surface;
  surface_load : ref -> Surface -> Surface;
  surface_save_snapshot : Surface -> Snapshot;
  surface_load_snapshot : Snapshot -> Surface -> Surface;
  surface_replay : Value -> Value -> Value -> Value -> Surface -> Surface
}.

(** ** Exceptions and the monad *)

Inductive Exn : Type :=
| AssertionError
| TypeError
| AttributeError
| ValueError
| IndexError.

(** The outcome of a call: it returns [a] in the world [w], or an
    exception aborts it. *)
Inductive Result (W A : Type) : Type :=
| Ok (a : A) (w : W)
| Raise (e : Exn).

Arguments Ok {W A} a w.
Arguments Raise {W A} e.

Definition M (W A : Type) : Type := W -> Result W A.

Definition ret {W A} (a : A) : M W A := fun w => Ok a w.

Definition bind {W A B} (m : M W A) (k : A -> M W B) : M W B :=
  fun w => match m w with
           | Ok a w' => k a w'
           | Raise e => Raise e
           end.

Definition raise {W A} (e : Exn) : M W A := fun _ => Raise e.

Definition get {W} : M W W := fun w => Ok w w.

Definition modify {W} (f : W -> W) : M W unit := fun w => Ok tt (f w).

(** Python's [assert]. *)
Definition py_assert {W} (b : bool) : M W unit :=
  if b then ret tt else raise AssertionError.

Declare Scope py_scope.
Delimit Scope py_scope with py.
Notation "x <- m ;; k" := (bind m (fun x => k))
  (at level 100, m at next level, right associativity) : py_scope.
Notation "m ;; k" := (bind m (fun _ => k))
  (at level 100, right associativity) : py_scope.
Open Scope py_scope.

(** ** The store *)

Section Model.
Context {ops : SurfaceOps}.

(** The [Struct] that [populate_cache] appends to [self.caches]. The object
    is never written to after its creation; [c_id] is its identity, which
    is what [self.caches.remove(cache)] compares. *)
Record Cache : Type := mkCache {
  c_id : ref;
  c_strokes : ref;
  c_background : Background;
  c_snapshot : Snapshot
}.

(** [self.rendered]: a [Struct] whose two attributes are reassigned. It is
    also the view that [strokes_from_to] takes of its arguments, which
    are objects with a [strokes] and a [background] attribute. *)
Record Struct : Type := mkStruct {
  s_strokes : ref;
  s_background : Background
}.

(** The attributes of a [Layer]. [strokes] and [s_strokes] are references
    to Python lists of [Stroke] references. *)
Record Layer : Type := mkLayer {
  surface : Surface;
  strokes : ref;
  background : Background;
  rendered : Struct;
  caches : list Cache;
  strokes_to_cache : Z
}.

(** The world: the store of [Stroke] instances (each one its [__dict__]),
    the store of list objects, the allocator, the class attribute
    [Stroke.serial_number], and the layer under consideration. *)
Record World : Type := mkWorld {
  objs : gmap nat (gmap string Value);
  lists : gmap nat (list nat);
  next_ref : ref;
  serial_number : Z;
  self : Layer
}.

Definition set_objs (f : gmap nat (gmap string Value) -> gmap nat (gmap string Value))
    (w : World) : World :=
  mkWorld (f (objs w)) (lists w) (next_ref w) (serial_number w) (self w).

Definition set_lists (f : gmap nat (list nat) -> gmap nat (list nat)) (w : World) : World :=
  mkWorld (objs w) (f (lists w)) (next_ref w) (serial_number w) (self w).

Definition set_next_ref (n : ref) (w : World) : World :=
  mkWorld (objs w) (lists w) n (serial_number w) (self w).

Definition set_serial_number (n : Z) (w : World) : World :=
  mkWorld (objs w) (lists w) (next_ref w) n (self w).

Definition set_self (f : Layer -> Layer) (w : World) : World :=
  mkWorld (objs w) (lists w) (next_ref w) (serial_number w) (f (self w)).

Definition set_surface (f : Surface -> Surface) (l : Layer) : Layer :=
  mkLayer (f (surface l)) (strokes l) (background l) (rendered l) (caches l)
    (strokes_to_cache l).

Definition set_rendered (r : Struct) (l : Layer) : Layer :=
  mkLayer (surface l) (strokes l) (background l) r (caches l) (strokes_to_cache l).

Definition set_caches (cs : list Cache) (l : Layer) : Layer :=
  mkLayer (surface l) (strokes l) (background l) (rendered l) cs (strokes_to_cache l).

(** *** Objects and lists in the store *)

(** A new object reference. *)
Definition alloc : M World ref :=
  fun w => Ok (next_ref w) (set_next_ref (S (next_ref w)) w).

(** The elements of the list object [r]. *)
Definition list_of (w : World) (r : ref) : list nat := default [] (lists w !! r).

(** A new list object holding [l]: the literal [[]] and the copy [l[:]]. *)
Definition new_list (l : list nat) : M World ref :=
  r <- alloc ;;
  modify (set_lists <[r := l]>) ;;
  ret r.

(** [r.append(x)], in place. *)
Definition list_append (r : ref) (x : nat) : M World unit :=
  modify (fun w => set_lists <[r := list_of w r ++ [x]]> w).

(** [getattr(o, name)] on an instance: its [__dict__] is looked up. *)
Definition getattr (o : ref) (name : string) : M World Value :=
  fun w => match objs w !! o with
           | Some d => match d !! name with
                       | Some v => Ok v w
                       | None => Raise AttributeError
                       end
           | None => Raise AttributeError
           end.

(** [o.name = v]. *)
Definition setattr (o : ref) (name : string) (v : Value) : M World unit :=
  modify (set_objs (fun h => <[o := <[name := v]> (default ∅ (h !! o))]> h)).

(** [del o.name]. *)
Definition delattr (o : ref) (name : string) : M World unit :=
  _ <- getattr o name ;;
  modify (set_objs (fun h => <[o := delete name (default ∅ (h !! o))]> h)).

(** The [__dict__] of an instance. *)
Definition dict_of (w : World) (o : ref) : gmap string Value := default ∅ (objs w !! o).

(** ** class Stroke *)

(** [Stroke()]: a new instance, then [__init__]. The class attribute
    [Stroke.serial_number] is incremented and its new value stored in the
    instance. *)
Definition Stroke_init : M World ref :=
  s <- alloc ;;
  modify (set_objs <[s := ∅]>) ;;
  setattr s "finished" (VBool false) ;;
  setattr s "rendered" (VBool false) ;;
  modify (fun w => set_serial_number (serial_number w + 1) w) ;;
  w <- get ;;
  setattr s "serial_number" (VInt (serial_number w)) ;;
  ret s.

(** [start_recording(tdw, brush)]. What the brush returns
    ([save_to_string()], [get_state()]) and the random seed are arguments. *)
Definition start_recording (s : ref) (tdw brush : ref)
    (brush_settings brush_state : Value) (seed : Z) : M World unit :=
  f <- getattr s "finished" ;;
  py_assert (negb (truthy f)) ;;
  setattr s "tdw" (VObj tdw) ;;
  setattr s "brush_settings" brush_settings ;;
  setattr s "brush_state" brush_state ;;
  setattr s "seed" (VInt seed) ;;
  setattr s "brush" (VObj brush) ;;
  setattr s "rendered" (VBool true).

(** [stop_recording()]. The recorded data, the bounding box and the
    painting time that the widget and the brush return are arguments. *)
Definition stop_recording (s : ref) (stroke_data : Value) (x y w h : Z)
    (total_painting_time : Value) : M World unit :=
  f <- getattr s "finished" ;;
  py_assert (negb (truthy f)) ;;
  _ <- getattr s "tdw" ;;
  setattr s "stroke_data" stroke_data ;;
  _ <- getattr s "brush" ;;
  setattr s "bbox" (VRect x y w h) ;;
  _ <- getattr s "brush" ;;
  setattr s "total_painting_time" total_painting_time ;;
  setattr s "empty" (VBool ((w <=? 0) && (h <=? 0))) ;;
  delattr s "tdw" ;;
  delattr s "brush" ;;
  setattr s "finished" (VBool true).

(** [render(surface)], on the surface of the layer. *)
Definition Stroke_render (s : ref) : M World unit :=
  f <- getattr s "finished" ;;
  py_assert (truthy f) ;;
  bbox <- getattr s "bbox" ;;
  match bbox with
  | VRect _ _ _ _ =>
      brush_settings <- getattr s "brush_settings" ;;
      brush_state <- getattr s "brush_state" ;;
      seed <- getattr s "seed" ;;
      stroke_data <- getattr s "stroke_data" ;;
      modify (set_self (set_surface
                (surface_replay brush_settings brush_state seed stroke_data))) ;;
      setattr s "rendered" (VBool true)
  | _ => raise AttributeError
  end.

(** [copy()]: [s.__dict__.update(self.__dict__)] writes every attribute
    of [self] into the new instance. *)
Definition Stroke_copy (this : ref) : M World ref :=
  f <- getattr this "finished" ;;
  py_assert (truthy f) ;;
  s <- Stroke_init ;;
  modify (fun w => set_objs <[s := dict_of w this ∪ dict_of w s]> w) ;;
  setattr s "rendered" (VBool false) ;;
  ret s.

(** [change_brush_settings(brush_settings)]. *)
Definition change_brush_settings (s : ref) (brush_settings : Value) : M World unit :=
  f <- getattr s "finished" ;;
  py_assert (truthy f) ;;
  r <- getattr s "rendered" ;;
  py_assert (negb (truthy r)) ;;
  setattr s "brush_settings" brush_settings.

(** ** strokes_from_to *)

Definition infinity : Z := 99999999.

Definition cache_struct (c : Cache) : Struct := mkStruct (c_strokes c) (c_background c).

Definition layer_struct (l : Layer) : Struct := mkStruct (strokes l) (background l).

(** [strokes_from_to(a, b)]: lists are compared element by element, and
    the elements, [Stroke] instances, by identity. *)
Definition strokes_from_to (w : World) (a b : Struct) : option (list nat) :=
  if negb (bool_decide (s_background a = s_background b)) then None
  else
    let n := length (list_of w (s_strokes a)) in
    if bool_decide (list_of w (s_strokes a) = take n (list_of w (s_strokes b)))
    then Some (drop n (list_of w (s_strokes b)))
    else None.

(** ** class Layer *)

(** [Layer(surface)]: with no argument a new surface is made; any other
    call fails its assertion. *)
Definition Layer_init (given : option Surface) : M World unit :=
  match given with
  | Some _ => raise AssertionError
  | None =>
      ls <- new_list [] ;;
      rs <- new_list [] ;;
      modify (set_self (fun _ => mkLayer surface_new ls None (mkStruct rs None) [] 6))
  end.

(** The loop [for cache in self.caches] of [populate_cache]: is there a
    cache from which fewer than [strokes_to_cache] strokes lead to what is
    rendered? *)
Fixpoint close_enough (w : World) (cs : list Cache) : bool :=
  match cs with
  | [] => false
  | cache :: cs' =>
      match strokes_from_to w (cache_struct cache) (rendered (self w)) with
      | None => close_enough w cs'
      | Some new_strokes =>
          if Z.of_nat (length new_strokes) <? strokes_to_cache (self w) then true
          else close_enough w cs'
      end
  end.

(** The loop [while len(self.caches) > max_caches-1: self.caches.pop(0)]. *)
Definition max_caches : Z := 3.

Fixpoint drop_caches (cs : list Cache) : list Cache :=
  match cs with
  | [] => []
  | _ :: cs' => if Z.of_nat (length cs) >? max_caches - 1 then drop_caches cs' else cs
  end.

Definition populate_cache : M World unit :=
  w <- get ;;
  if Z.of_nat (length (list_of w (s_strokes (rendered (self w)))))
       <? strokes_to_cache (self w) then ret tt
  else if close_enough w (caches (self w)) then ret tt
  else
    modify (set_self (fun l => set_caches (drop_caches (caches l)) l)) ;;
    cache <- alloc ;;
    w <- get ;;
    copy <- new_list (list_of w (s_strokes (rendered (self w)))) ;;
    modify (set_self (fun l =>
      set_caches (caches l ++ [mkCache cache copy (s_background (rendered l))
                                 (surface_save_snapshot (surface l))]) l)).

(** *** rerender *)

(** The nested function [count_strokes_from(rendered)]. *)
Definition count_strokes_from (w : World) (r : Struct) : Z :=
  match strokes_from_to w r (layer_struct (self w)) with
  | None => infinity
  | Some strokes => Z.of_nat (length strokes)
  end.

(** The local variable [caching] of [render_new_strokes]: [True], or the
    stroke from which caching starts. *)
Inductive Caching : Type :=
| CachingTrue
| CachingFrom (s : ref).

(** [l[i]] for an integer [i], which counts from the end when negative. *)
Definition py_index (l : list nat) (i : Z) : option nat :=
  if i <? 0 then
    if Z.of_nat (length l) + i <? 0 then None
    else l !! Z.to_nat (Z.of_nat (length l) + i)
  else l !! Z.to_nat i.

(** [caching is new_stroke] sets [caching] to [True]. *)
Definition caching_step (caching : Caching) (new_stroke : ref) : Caching :=
  match caching with
  | CachingTrue => CachingTrue
  | CachingFrom s => if bool_decide (s = new_stroke) then CachingTrue else caching
  end.

(** The loop [for new_stroke in new_strokes]. *)
Fixpoint render_loop (caching : Caching) (new_strokes : list nat) : M World unit :=
  match new_strokes with
  | [] => ret tt
  | new_stroke :: rest =>
      Stroke_render new_stroke ;;
      w <- get ;;
      list_append (s_strokes (rendered (self w))) new_stroke ;;
      let caching := caching_step caching new_stroke in
      match caching with
      | CachingTrue => populate_cache
      | CachingFrom _ => ret tt
      end ;;
      render_loop caching rest
  end.

(** The nested function [render_new_strokes()]. When [strokes_from_to]
    returns [None], [len(new_strokes)] raises [TypeError]. *)
Definition render_new_strokes : M World unit :=
  w <- get ;;
  match strokes_from_to w (rendered (self w)) (layer_struct (self w)) with
  | None => raise TypeError
  | Some new_strokes =>
      caching <-
        (if Z.of_nat (length new_strokes) >? 2 * strokes_to_cache (self w) then
           match py_index new_strokes (- 2 * strokes_to_cache (self w)) with
           | Some s => ret (CachingFrom s)
           | None => raise IndexError
           end
         else ret CachingTrue) ;;
      render_loop caching new_strokes ;;
      w <- get ;;
      py_assert (bool_decide (list_of w (s_strokes (rendered (self w)))
                              = list_of w (strokes (self w))))
  end.

(** [self.caches.remove(cache)]: the first element that is [cache], an
    object compared by identity, is taken out. *)
Fixpoint list_remove (cache : Cache) (cs : list Cache) : option (list Cache) :=
  match cs with
  | [] => None
  | c :: cs' =>
      if bool_decide (c_id c = c_id cache) then Some cs'
      else match list_remove cache cs' with
           | Some r => Some (c :: r)
           | None => None
           end
  end.

(** The first two statements of [render_cached], its "least recently
    used caching strategy": [self.caches.remove(cache)], which raises
    [ValueError] when [cache] is not in the list, and
    [self.caches.append(cache)]. *)
Definition use_cache (cache : Cache) : M World unit :=
  w <- get ;;
  match list_remove cache (caches (self w)) with
  | None => raise ValueError
  | Some cs => modify (set_self (set_caches (cs ++ [cache])))
  end.

(** The nested function [render_cached(cache=cache)]. *)
Definition render_cached (cache : Cache) : M World unit :=
  use_cache cache ;;
  modify (set_self (set_surface (surface_load_snapshot (c_snapshot cache)))) ;;
  w <- get ;;
  copy <- new_list (list_of w (c_strokes cache)) ;;
  modify (set_self (fun l => set_rendered (mkStruct copy (s_background (rendered l))) l)) ;;
  modify (set_self (fun l =>
    set_rendered (mkStruct (s_strokes (rendered l)) (c_background cache)) l)) ;;
  render_new_strokes.

(** The nested function [render_from_empty()]. *)
Definition render_from_empty : M World unit :=
  w <- get ;;
  match background (self w) with
  | Some bg => modify (set_self (set_surface (surface_load bg)))
  | None => modify (set_self (set_surface surface_clear))
  end ;;
  empty <- new_list [] ;;
  modify (set_self (fun l => set_rendered (mkStruct empty (s_background (rendered l))) l)) ;;
  modify (set_self (fun l =>
    set_rendered (mkStruct (s_strokes (rendered l)) (background l)) l)) ;;
  render_new_strokes.

(** The three kinds of function that [rerender] puts in [options]. *)
Inductive Strategy : Type :=
| RenderNewStrokes
| RenderCached (cache : Cache)
| RenderFromEmpty.

Definition run (f : Strategy) : M World unit :=
  match f with
  | RenderNewStrokes => render_new_strokes
  | RenderCached cache => render_cached cache
  | RenderFromEmpty => render_from_empty
  end.

(** A function object in [options]: what it does, and where it is.
    [options] holds tuples [(cost, function)] and [min(options)] compares
    tuples: on equal costs Python 2 goes on to compare the two function
    objects, and function objects, which define no comparison, are
    ordered by their addresses. *)
Record Closure : Type := mkClosure {
  fn_addr : Z;
  fn_code : Strategy
}.

(** [a < b] on the tuples [(cost, function)]. *)
Definition tuple_lt (a b : Z * Closure) : bool :=
  if a.1 =? b.1 then fn_addr a.2 <? fn_addr b.2 else a.1 <? b.1.

(** [min(options)]: the first element is kept until a smaller one comes. *)
Fixpoint min_from (best : Z * Closure) (l : list (Z * Closure)) : Z * Closure :=
  match l with
  | [] => best
  | x :: l' => min_from (if tuple_lt x best then x else best) l'
  end.

Definition py_min (l : list (Z * Closure)) : option (Z * Closure) :=
  match l with
  | [] => None
  | x :: l' => Some (min_from x l')
  end.

(** The list [options] when the loop over the caches and the full
    rerender have been added. [addr k] is the address of the function
    object of the [k]-th option. *)
Definition cache_options (addr : nat -> Z) (w : World) : list (Z * Closure) :=
  imap (fun k cache =>
          (count_strokes_from w (cache_struct cache) + 3,
           mkClosure (addr (S k)) (RenderCached cache)))
       (caches (self w)).

Definition empty_cost (w : World) : Z :=
  let cost := Z.of_nat (length (list_of w (strokes (self w)))) in
  match background (self w) with
  | Some _ => cost + 3
  | None => cost
  end.

Definition options (addr : nat -> Z) (w : World) : list (Z * Closure) :=
  (count_strokes_from w (rendered (self w)), mkClosure (addr 0%nat) RenderNewStrokes)
  :: cache_options addr w
  ++ [(empty_cost w,
       mkClosure (addr (S (length (caches (self w))))) RenderFromEmpty)].

(** [rerender(only_estimate_cost)]. *)
Definition rerender (addr : nat -> Z) (only_estimate_cost : bool) : M World Z :=
  w <- get ;;
  let cost := count_strokes_from w (rendered (self w)) in
  if cost <=? 1 then
    (if (cost >? 0) && negb only_estimate_cost then render_new_strokes else ret tt) ;;
    ret cost
  else
    match py_min (options addr w) with
    | None => raise ValueError
    | Some (cost, render) =>
        if only_estimate_cost then ret cost
        else
          run (fn_code render) ;;
          ret cost
    end.

End Model.

Arguments Cache : clear implicits.
Arguments Layer : clear implicits.
Arguments World : clear implicits.

(** ** A concrete surface, and the callers of the layer *)

(** What has been painted on a canvas since it was last cleared or loaded.
    A snapshot is the canvas itself, and loading it brings the canvas
    back. *)
Inductive Paint : Type :=
| Loaded (bg : ref)
| Replayed (brush_settings brush_state seed stroke_data : Value).

#[export] Instance canvas : SurfaceOps := {|
  Surface := list Paint;
  Snapshot := list Paint;
  surface_new := [];
  surface_clear := fun _ => [];
  surface_load := fun bg _ => [Loaded bg];
  surface_save_snapshot := fun s => s;
  surface_load_snapshot := fun snap _ => snap;
  surface_replay := fun bs st seed data s => s ++ [Replayed bs st seed data]
|}.

Section Callers.
Context {ops : SurfaceOps}.

(** The world before anything is created. *)
Definition empty_world : World ops :=
  mkWorld ∅ ∅ 0%nat 0 (mkLayer surface_new 0%nat None (mkStruct 0%nat None) [] 6).

(** A stroke recorded from start to stop, with data derived from [n]. *)
Definition record_stroke (n : Z) : M (World ops) ref :=
  s <- Stroke_init ;;
  start_recording s 0%nat 0%nat (VStr "brush") (VInt n) n ;;
  stop_recording s (VInt (100 + n)) 0 0 10 10 (VInt 1) ;;
  ret s.

(** [layer.strokes.append(s)], done by the caller. *)
Definition append_stroke (s : ref) : M (World ops) unit :=
  w <- get ;;
  list_append (strokes (self w)) s.

(** [n] strokes recorded and appended, one after the other. *)
Fixpoint paint_strokes (n : nat) : M (World ops) unit :=
  match n with
  | O => ret tt
  | S n' =>
      paint_strokes n' ;;
      s <- record_stroke (Z.of_nat n') ;;
      append_stroke s
  end.

(** [layer.background = bg], done by the caller. *)
Definition set_background (bg : Background) : M (World ops) unit :=
  modify (set_self (fun l =>
    mkLayer (surface l) (strokes l) bg (rendered l) (caches l) (strokes_to_cache l))).

(** [s.change_brush_settings(v)] for each [v] of [vs], in turn. *)
Fixpoint change_brush_settings_each (s : ref) (vs : list Value) : M (World ops) unit :=
  match vs with
  | [] => ret tt
  | v :: vs' => change_brush_settings s v ;; change_brush_settings_each s vs'
  end.

(** [layer.strokes = layer.strokes[:n]], done by the caller to undo the
    strokes after the first [n]. *)
Definition truncate_strokes (n : nat) : M (World ops) unit :=
  w <- get ;;
  l <- new_list (take n (list_of w (strokes (self w)))) ;;
  modify (set_self (fun L =>
    mkLayer (surface L) l (background L) (rendered L) (caches L) (strokes_to_cache L))).

(** The world in which a computation ends; [empty_world] if it raises. *)
Definition exec {A} (m : M (World ops) A) (w : World ops) : World ops :=
  match m w with
  | Ok _ w' => w'
  | Raise _ => empty_world
  end.

(** The value that a computation returns, if it returns. *)
Definition result {A} (m : M (World ops) A) (w : World ops) : option A :=
  match m w with
  | Ok a _ => Some a
  | Raise _ => None
  end.

(** Does the computation return? *)
Definition succeeds {A} (m : M (World ops) A) (w : World ops) : bool :=
  match m w with
  | Ok _ _ => true
  | Raise _ => false
  end.

End Callers.

(** The world after one stroke has been recorded: the stroke is object [0],
    it is finished and its serial number is 1. *)
Definition one_stroke_world : World canvas := exec (record_stroke 7) empty_world.

(** ** Predicates on worlds *)

Section Predicates.
Context {ops : SurfaceOps}.
Implicit Types (w : World ops).

(** The list object of [self.rendered.strokes]. *)
Definition rref w : ref := s_strokes (rendered (self w)).

(** The references held by the layer are allocated, the cache objects
    are distinct, and no cache shares its list of strokes with
    [self.rendered]. This holds of a new [Layer] and every method keeps
    it. *)
Definition wf w : Prop :=
  (rref w < next_ref w)%nat /\
  (strokes (self w) < next_ref w)%nat /\
  NoDup (c_id <$> caches (self w)) /\
  Forall (fun c => (c_id c < next_ref w)%nat /\ (c_strokes c < next_ref w)%nat /\
                   c_strokes c <> rref w) (caches (self w)).

(** What a method of the layer may have done between the worlds [w0] and
    [w]: references were allocated; [self.strokes], [self.background] and
    [self.strokes_to_cache] were not assigned; [self.rendered.strokes] is
    the list it was or a new one; a list that existed in [w0] and is not
    the one of [self.rendered] was not written to; and of the attributes
    of the strokes only the [rendered] flag was written. *)
Definition steps w0 w : Prop :=
  (next_ref w0 <= next_ref w)%nat /\
  strokes (self w) = strokes (self w0) /\
  background (self w) = background (self w0) /\
  strokes_to_cache (self w) = strokes_to_cache (self w0) /\
  serial_number w = serial_number w0 /\
  (rref w = rref w0 \/ (next_ref w0 <= rref w)%nat) /\
  (forall r, (r < next_ref w0)%nat -> r <> rref w0 -> lists w !! r = lists w0 !! r) /\
  (forall o name, name <> "rendered" -> dict_of w o !! name = dict_of w0 o !! name).

(** [self.caches] holds at most [max_caches] entries. *)
Definition caches_bounded w : Prop := (length (caches (self w)) <= 3)%nat.

(** The stroke [s] can be rendered: it is finished and has the attributes
    that [render] reads. *)
Definition renderable w (s : ref) : bool :=
  match dict_of w s !! "finished", dict_of w s !! "bbox" with
  | Some f, Some (VRect _ _ _ _) =>
      truthy f
      && bool_decide (is_Some (dict_of w s !! "brush_settings"))
      && bool_decide (is_Some (dict_of w s !! "brush_state"))
      && bool_decide (is_Some (dict_of w s !! "seed"))
      && bool_decide (is_Some (dict_of w s !! "stroke_data"))
  | _, _ => false
  end.

(** The strokes of [self.strokes] can all be rendered. *)
Definition all_renderable w : bool :=
  forallb (renderable w) (list_of w (strokes (self w))).

#[export] Instance wf_dec w : Decision (wf w).
Proof. unfold wf. apply _. Defined.

End Predicates.

(** ** Specifications to compare the code with *)

Section Specifications.
Context {ops : SurfaceOps}.

(** The selection that breaks ties by the order of the list: the minimum
    of the costs alone, the first option that reaches it. *)
Fixpoint earliest_min_from (best : Z * Closure) (l : list (Z * Closure)) : Z * Closure :=
  match l with
  | [] => best
  | x :: l' => earliest_min_from (if x.1 <? best.1 then x else best) l'
  end.

Definition earliest_min (l : list (Z * Closure)) : option (Z * Closure) :=
  match l with
  | [] => None
  | x :: l' => Some (earliest_min_from x l')
  end.

(** The addresses of the function objects of [l] grow along the list. *)
Definition addr_ordered (l : list (Z * Closure)) : Prop :=
  forall i j x y, l !! i = Some x -> l !! j = Some y -> (i < j)%nat ->
                  fn_addr x.2 < fn_addr y.2.

(** A replay that never calls [populate_cache]: each stroke is rendered
    and appended to [self.rendered.strokes]. *)
Fixpoint replay_only (new_strokes : list nat) : M (World ops) unit :=
  match new_strokes with
  | [] => ret tt
  | new_stroke :: rest =>
      Stroke_render new_stroke ;;
      w <- get ;;
      list_append (s_strokes (rendered (self w))) new_stroke ;;
      replay_only rest
  end.

(** The last statement of [render_new_strokes]. *)
Definition assert_rendered : M (World ops) unit :=
  w <- get ;;
  py_assert (bool_decide (list_of w (s_strokes (rendered (self w)))
                          = list_of w (strokes (self w)))).

(** A replay of [new_strokes] that populates the cache only while it
    renders the last [k] of them. *)
Definition replay_caching_last (k : nat) (new_strokes : list nat) : M (World ops) unit :=
  replay_only (take (length new_strokes - k) new_strokes) ;;
  render_loop CachingTrue (drop (length new_strokes - k) new_strokes) ;;
  assert_rendered.

(** What happens to [self.caches]: [populate_cache] adds a new entry, or
    [render_cached] uses one. *)
Inductive CacheEvent : Type :=
| Populated (c : Cache ops)
| Used (c : Cache ops).

Definition event_cache (e : CacheEvent) : Cache ops :=
  match e with
  | Populated c => c
  | Used c => c
  end.

(** The list [self.caches] after the event, as the two methods compute it. *)
Definition cache_event (e : CacheEvent) (cs : list (Cache ops)) : option (list (Cache ops)) :=
  match e with
  | Populated c => Some (drop_caches cs ++ [c])
  | Used c =>
      match list_remove c cs with
      | Some cs' => Some (cs' ++ [c])
      | None => None
      end
  end.

Fixpoint cache_events (es : list CacheEvent) (cs : list (Cache ops)) : option (list (Cache ops)) :=
  match es with
  | [] => Some cs
  | e :: es' =>
      match cache_event e cs with
      | Some cs' => cache_events es' cs'
      | None => None
      end
  end.

(** The time of the last use of each cache object, when the events [es]
    happen at the times [t], [t+1], ... *)
Fixpoint use_times (t : nat) (es : list CacheEvent) (m : gmap nat nat) : gmap nat nat :=
  match es with
  | [] => m
  | e :: es' => use_times (S t) es' (<[c_id (event_cache e) := t]> m)
  end.

(** A populated entry is a new object: no earlier event is about it. *)
Fixpoint new_when_populated (t : nat) (es : list CacheEvent) (m : gmap nat nat) : Prop :=
  match es with
  | [] => True
  | e :: es' =>
      match e with
      | Populated c => m !! c_id c = None
      | Used _ => True
      end /\ new_when_populated (S t) es' (<[c_id (event_cache e) := t]> m)
  end.

(** [c] was last used before [c']. *)
Definition used_before (m : gmap nat nat) (c c' : Cache ops) : Prop :=
  exists t t', m !! c_id c = Some t /\ m !! c_id c' = Some t' /\ (t < t')%nat.

(** The invariant of the recency order: the cache objects are distinct,
    each was last used before the time [t], the list is sorted by the
    times of last use, and it has at most three entries. *)
Definition lru_inv (t : nat) (m : gmap nat nat) (cs : list (Cache ops)) : Prop :=
  NoDup (c_id <$> cs) /\
  Forall (fun c => exists k, m !! c_id c = Some k /\ (k < t)%nat) cs /\
  StronglySorted (used_before m) cs /\
  (length cs <= 3)%nat.

End Specifications.

(** ** Worlds to run the layer in *)

(** Function objects at growing addresses, and at falling ones. *)
Definition addr_up (k : nat) : Z := Z.of_nat k.
Definition addr_down (k : nat) : Z := - Z.of_nat k.

(** A new layer on which [n] strokes were painted and none rendered. *)
Definition painted_world (n : nat) : World canvas :=
  exec (Layer_init None ;; paint_strokes n) empty_world.

(** The layer after twenty strokes were painted and rendered: the
    replay has left two cache entries. *)
Definition rendered_world : World canvas :=
  exec (rerender addr_up false) (painted_world 20).

(** Then the caller undoes the last ten strokes. *)
Definition undone_world : World canvas :=
  exec (truncate_strokes 10) rendered_world.

(** Three strokes painted and rendered, then one more painted. *)
Definition one_more_world : World canvas :=
  exec (paint_strokes 1) (exec (rerender addr_up false) (painted_world 3)).

(** ** More callers and predicates *)

Section Recording.
Context {ops : SurfaceOps}.
Implicit Types (w : World ops).

(** A stroke made and recorded from start to stop: [Stroke()],
    [start_recording], [stop_recording]. *)
Definition record (tdw brush : ref) (brush_settings brush_state : Value) (seed : Z)
    (stroke_data : Value) (x y b h : Z) (total_painting_time : Value) : M (World ops) ref :=
  s <- Stroke_init ;;
  start_recording s tdw brush brush_settings brush_state seed ;;
  stop_recording s stroke_data x y b h total_painting_time ;;
  ret s.

(** No stroke has a serial number above the class counter. *)
Definition serials_bounded w : Prop :=
  forall o n, dict_of w o !! "serial_number" = Some (VInt n) -> n <= serial_number w.

End Recording.

(** ** What the surface should show *)

(** What the layer relies on from its surface: a cleared surface is a new
    one, loading a background does not depend on what was there, and
    loading a snapshot brings back the surface it was saved from. *)
Class SurfaceLaws (ops : SurfaceOps) : Prop := {
  clear_new : forall s : Surface, surface_clear s = surface_new;
  load_new : forall (bg : ref) (s : Surface), surface_load bg s = surface_load bg surface_new;
  snapshot_restore : forall s s' : Surface,
    surface_load_snapshot (surface_save_snapshot s) s' = s
}.

#[export] Instance canvas_laws : SurfaceLaws canvas.
Proof. split; reflexivity. Qed.

Section Painting.
Context {ops : SurfaceOps}.
Implicit Types (w : World ops).

(** The replay of the stroke [s] on a surface, with the attributes that
    [s] has in [w]. *)
Definition replay_stroke w (s : ref) (sf : Surface) : Surface :=
  match dict_of w s !! "brush_settings", dict_of w s !! "brush_state",
        dict_of w s !! "seed", dict_of w s !! "stroke_data" with
  | Some bs, Some st, Some seed, Some data => surface_replay bs st seed data sf
  | _, _, _, _ => sf
  end.

(** The surface on which nothing is painted but the background. *)
Definition base_surface (bg : Background) : Surface :=
  match bg with
  | Some b => surface_load b surface_new
  | None => surface_new
  end.

(** The surface after the strokes of [l] were replayed in turn over the
    background. *)
Definition painted w (bg : Background) (l : list nat) : Surface :=
  foldl (fun sf s => replay_stroke w s sf) (base_surface bg) l.

(** The surface shows what [self.rendered] says, and every cache entry
    holds a snapshot of what its strokes and background paint. *)
Definition coherent w : Prop :=
  surface (self w)
  = painted w (s_background (rendered (self w))) (list_of w (rref w)) /\
  Forall (fun c => forall sf,
            surface_load_snapshot (c_snapshot c) sf
            = painted w (c_background c) (list_of w (c_strokes c)))
         (caches (self w)).

(** No cache entry holds fewer strokes than the threshold. *)
Definition caches_worth w : Prop :=
  Forall (fun c => strokes_to_cache (self w) <= Z.of_nat (length (list_of w (c_strokes c))))
         (caches (self w)).

End Painting.

(** The layer that [Layer()] makes in the empty world. *)
Definition new_layer_world : World canvas := exec (Layer_init None) empty_world.

(** ** The worlds between the steps of rerender *)

Section Between.
Context {ops : SurfaceOps}.
Implicit Types (w : World ops).

(** The world when [render_new_strokes] has rendered [s] and appended it
    to [self.rendered.strokes]. *)
Definition appended_world (s : ref) w : World ops :=
  set_lists <[rref w := list_of w (rref w) ++ [s]]> w.

(** The world in which [render_cached] calls [render_new_strokes]: the
    caches are [cs], the snapshot of [cache] is loaded, and
    [self.rendered] is a copy of the strokes of [cache], with its
    background. *)
Definition cached_world (cache : Cache ops) (cs : list (Cache ops)) w : World ops :=
  mkWorld (objs w) (<[next_ref w := list_of w (c_strokes cache)]> (lists w))
    (S (next_ref w)) (serial_number w)
    (mkLayer (surface_load_snapshot (c_snapshot cache) (surface (self w)))
       (strokes (self w)) (background (self w))
       (mkStruct (next_ref w) (c_background cache)) cs (strokes_to_cache (self w))).

(** The world in which [render_from_empty] calls [render_new_strokes]. *)
Definition emptied_world w : World ops :=
  mkWorld (objs w) (<[next_ref w := []]> (lists w)) (S (next_ref w)) (serial_number w)
    (mkLayer
       (match background (self w) with
        | Some bg => surface_load bg (surface (self w))
        | None => surface_clear (surface (self w))
        end)
       (strokes (self w)) (background (self w))
       (mkStruct (next_ref w) (background (self w))) (caches (self w))
       (strokes_to_cache (self w))).

End Between.

(** ** More example worlds *)

(** A stroke that was made and on which no recording was started: it is
    object [0]. *)
Definition new_stroke_world : World canvas := exec Stroke_init empty_world.

(** A new layer to which the caller has appended a stroke that is not
    finished. *)
Definition unfinished_world : World canvas :=
  exec (Layer_init None ;; s <- Stroke_init ;; append_stroke s) empty_world.

(** Three strokes painted and rendered, then one more recorded that the
    caller has not appended yet. *)
Definition unappended_world : World canvas :=
  exec (record_stroke 3) (exec (rerender addr_up false) (painted_world 3)).

(** Six strokes painted, then replayed by the loop of [render_new_strokes]
    while caching is put off: [populate_cache] was not called. *)
Definition uncached_world : World canvas :=
  exec (render_loop (CachingFrom 0%nat)
          (list_of (painted_world 6) (strokes (self (painted_world 6)))))
       (painted_world 6).

(** * Verification *)

(** ** The monad *)

Lemma succeeds_exec {ops : SurfaceOps} {A} (m : M (World ops) A) (w : World ops) :
  succeeds m w = true -> exists a, m w = Ok a (exec m w).
Proof.
  unfold succeeds, exec. destruct (m w) as [a w'|e]; [by exists a|discriminate].
Qed.

Lemma result_exec {ops : SurfaceOps} {A} (m : M (World ops) A) (w : World ops) (a : A) :
  result m w = Some a -> m w = Ok a (exec m w).
Proof.
  unfold result, exec. destruct (m w) as [a' w'|e]; [|discriminate].
  by intros [= ->].
Qed.

Lemma exec_ok {ops : SurfaceOps} {A} (m : M (World ops) A) (w w' : World ops) (a : A) :
  m w = Ok a w' -> exec m w = w'.
Proof. unfold exec. by intros ->. Qed.

Lemma result_ok {ops : SurfaceOps} {A} (m : M (World ops) A) (w w' : World ops) (a : A) :
  m w = Ok a w' -> result m w = Some a.
Proof. unfold result. by intros ->. Qed.

Lemma succeeds_ok {ops : SurfaceOps} {A} (m : M (World ops) A) (w w' : World ops) (a : A) :
  m w = Ok a w' -> succeeds m w = true.
Proof. unfold succeeds. by intros ->. Qed.

Section MonadFacts.
Context {W A B : Type}.

Lemma bind_ok (m : M W A) (k : A -> M W B) (w : W) (b : B) (w' : W) :
  bind m k w = Ok b w' <-> exists a w1, m w = Ok a w1 /\ k a w1 = Ok b w'.
Proof.
  unfold bind. split.
  - destruct (m w) as [a w1|e]; [eauto | discriminate].
  - intros (a & w1 & -> & Hk). exact Hk.
Qed.

Lemma bind_run (m : M W A) (k : A -> M W B) (w : W) (a : A) (w1 : W) :
  m w = Ok a w1 -> bind m k w = k a w1.
Proof. unfold bind. now intros ->. Qed.

Lemma bind_raise (m : M W A) (k : A -> M W B) (w : W) (e : Exn) :
  m w = Raise e -> bind m k w = Raise e.
Proof. unfold bind. now intros ->. Qed.

Lemma py_assert_ok (b : bool) (w w' : W) (u : unit) :
  py_assert b w = Ok u w' <-> b = true /\ w' = w.
Proof.
  unfold py_assert. destruct b; cbn; split.
  - unfold ret. intros [= <- <-]. done.
  - intros [_ ->]. by destruct u.
  - discriminate.
  - intros [? _]. discriminate.
Qed.

Lemma bind_assoc {C} (m : M W A) (k : A -> M W B) (h : B -> M W C) (w : W) :
  bind (bind m k) h w = bind m (fun a => bind (k a) h) w.
Proof. unfold bind. by destruct (m w). Qed.

Lemma bind_ext (m : M W A) (k k' : A -> M W B) (w : W) :
  (forall a w', k a w' = k' a w') -> bind m k w = bind m k' w.
Proof. intros H. unfold bind. by destruct (m w). Qed.

Lemma bind_cong_l (m m' : M W A) (k : A -> M W B) (w : W) :
  m w = m' w -> bind m k w = bind m' k w.
Proof. unfold bind. by intros ->. Qed.

End MonadFacts.

(** Splits a hypothesis [(x <- m ;; k) w = Ok b w'] into its two runs. *)
Ltac bind_inv H :=
  let a := fresh "a" in
  let w1 := fresh "w" in
  let H1 := fresh "Hrun" in
  apply bind_ok in H as (a & w1 & H1 & H).

(** ** class Stroke *)

Section StrokeFacts.
Context {ops : SurfaceOps}.
Implicit Types (w : World ops) (o s : nat) (name : string) (v : Value).

Lemma getattr_ok o name w v w' :
  getattr o name w = Ok v w' <-> w' = w /\ dict_of w o !! name = Some v.
Proof.
  unfold getattr, dict_of. destruct (objs w !! o) as [d|]; cbn.
  - destruct (d !! name) as [x|]; split.
    + intros [= <- <-]. done.
    + intros [-> [= ->]]. done.
    + discriminate.
    + intros [_ ?]. discriminate.
  - split; [discriminate|]. rewrite lookup_empty. intros [_ ?]. discriminate.
Qed.

Lemma getattr_run o name w v :
  dict_of w o !! name = Some v -> getattr o name w = Ok v w.
Proof. intros. by apply getattr_ok. Qed.

Lemma getattr_raise o name w :
  dict_of w o !! name = None -> getattr o name w = Raise AttributeError.
Proof.
  unfold getattr, dict_of. destruct (objs w !! o) as [d|]; cbn; [|done].
  by intros ->.
Qed.

Lemma setattr_run o name v w :
  setattr o name v w = Ok tt (set_objs <[o := <[name := v]> (dict_of w o)]> w).
Proof. reflexivity. Qed.

Lemma dict_of_set_objs_insert o o' d w :
  dict_of (set_objs <[o := d]> w) o' = if decide (o = o') then d else dict_of w o'.
Proof.
  unfold dict_of; cbn. rewrite lookup_insert. by destruct (decide (o = o')).
Qed.

(** [Stroke()] returns the next reference and stores the attributes of
    [__init__] under it. *)
Lemma Stroke_init_run w :
  Stroke_init w =
  Ok (next_ref w)
     (mkWorld
        (<[next_ref w :=
             <["serial_number" := VInt (serial_number w + 1)]>
               (<["rendered" := VBool false]> (<["finished" := VBool false]> ∅))]>
           (objs w))
        (lists w) (S (next_ref w)) (serial_number w + 1) (self w)).
Proof.
  unfold Stroke_init, bind, alloc, modify, get, setattr, ret, set_objs, set_next_ref,
    set_serial_number; cbn.
  rewrite !lookup_insert_eq; cbn. rewrite !insert_insert_eq. done.
Qed.

(** What [copy()] returns, and the world it leaves. *)
Lemma Stroke_copy_ok w this s w' :
  Stroke_copy this w = Ok s w' ->
  (exists f, dict_of w this !! "finished" = Some f /\ truthy f = true) /\
  s = next_ref w /\
  serial_number w' = serial_number w + 1 /\
  next_ref w' = S (next_ref w) /\
  lists w' = lists w /\
  self w' = self w /\
  (forall o, o <> s -> dict_of w' o = dict_of w o) /\
  (this <> next_ref w ->
   dict_of w' s =
   <["rendered" := VBool false]>
     (dict_of w this ∪
      <["serial_number" := VInt (serial_number w + 1)]>
        (<["rendered" := VBool false]> (<["finished" := VBool false]> ∅)))).
Proof.
  unfold Stroke_copy. intros H.
  bind_inv H. apply getattr_ok in Hrun as [-> Hf].
  bind_inv H. apply py_assert_ok in Hrun as [Ht ->].
  bind_inv H. rewrite Stroke_init_run in Hrun. injection Hrun as <- <-.
  cbn in H. injection H as <- <-. cbn.
  split; [eauto|]. split; [done|]. split; [done|]. split; [done|].
  split; [done|]. split; [done|]. split.
  - intros o Ho. unfold dict_of; cbn. by rewrite !lookup_insert_ne.
  - intros Hne. unfold dict_of; cbn.
    rewrite !lookup_insert_eq; cbn. by rewrite lookup_insert_ne.
Qed.

Lemma change_brush_settings_ok s v w u w' :
  change_brush_settings s v w = Ok u w' <->
  (exists f r, dict_of w s !! "finished" = Some f /\ truthy f = true /\
               dict_of w s !! "rendered" = Some r /\ truthy r = false) /\
  w' = set_objs <[s := <["brush_settings" := v]> (dict_of w s)]> w.
Proof.
  unfold change_brush_settings. split.
  - intros H.
    bind_inv H. apply getattr_ok in Hrun as [-> Hf].
    bind_inv H. apply py_assert_ok in Hrun as [Ht ->].
    bind_inv H. apply getattr_ok in Hrun as [-> Hr].
    bind_inv H. apply py_assert_ok in Hrun as [Hn ->].
    rewrite setattr_run in H. injection H as <-.
    split; [|done]. exists a, a1. by rewrite negb_true_iff in Hn.
  - intros [(f & r & Hf & Ht & Hr & Hn) ->].
    rewrite (bind_run _ _ _ _ _ (getattr_run _ _ _ _ Hf)).
    rewrite Ht; cbn.
    rewrite (bind_run _ _ _ _ _ (getattr_run _ _ _ _ Hr)).
    rewrite Hn; cbn. by destruct u.
Qed.

(** A stroke that is finished and not rendered stays so when its brush
    settings are changed: any number of changes go through. *)
Lemma change_brush_settings_each_ok s vs : forall w f r,
  dict_of w s !! "finished" = Some f -> truthy f = true ->
  dict_of w s !! "rendered" = Some r -> truthy r = false ->
  exists w', change_brush_settings_each s vs w = Ok tt w'.
Proof.
  induction vs as [|v vs IH]; intros w f r Hf Ht Hr Hn; cbn.
  - by eexists.
  - erewrite (bind_run _ _ _ tt); last first.
    { apply change_brush_settings_ok. split; [|reflexivity]. by exists f, r. }
    apply (IH _ f r); try done.
    + rewrite dict_of_set_objs_insert, decide_True by done.
      by rewrite lookup_insert_ne.
    + rewrite dict_of_set_objs_insert, decide_True by done.
      by rewrite lookup_insert_ne.
Qed.

Lemma Stroke_render_ok s w u w' :
  Stroke_render s w = Ok u w' ->
  (exists f, dict_of w s !! "finished" = Some f /\ truthy f = true) /\
  dict_of w' s = <["rendered" := VBool true]> (dict_of w s) /\
  (forall o, o <> s -> dict_of w' o = dict_of w o) /\
  lists w' = lists w /\ next_ref w' = next_ref w /\
  serial_number w' = serial_number w /\
  exists bs st seed data,
    dict_of w s !! "brush_settings" = Some bs /\
    dict_of w s !! "brush_state" = Some st /\
    dict_of w s !! "seed" = Some seed /\
    dict_of w s !! "stroke_data" = Some data /\
    self w' = set_surface (surface_replay bs st seed data) (self w).
Proof.
  unfold Stroke_render. intros H.
  bind_inv H. apply getattr_ok in Hrun as [-> Hf].
  bind_inv H. apply py_assert_ok in Hrun as [Ht ->].
  bind_inv H. apply getattr_ok in Hrun as [-> Hb].
  destruct a1; try discriminate.
  bind_inv H. apply getattr_ok in Hrun as [-> Hbs].
  bind_inv H. apply getattr_ok in Hrun as [-> Hst].
  bind_inv H. apply getattr_ok in Hrun as [-> Hseed].
  bind_inv H. apply getattr_ok in Hrun as [-> Hdata].
  cbn in H. injection H as _ <-. cbn.
  split; [eauto|]. split.
  { unfold dict_of; cbn. by rewrite lookup_insert_eq. }
  split.
  { intros o Ho. unfold dict_of; cbn. by rewrite lookup_insert_ne. }
  do 3 (split; [done|]). by exists a1, a2, a3, a4.
Qed.

(** *** Claim C7 *)

(** C7 (the code departs from it). [copy()] of a finished stroke [this]
    returns a new object whose attributes are those of [this], and this
    includes [serial_number]: the number that [Stroke()] has just given to
    the copy is overwritten by [__dict__.update], so the copy carries the
    serial number of the original, not one of its own; the class counter
    has moved on by one, and the [rendered] flag of the copy is cleared. *)
Theorem Stroke_copy_keeps_serial_number w this s w' n :
  (this < next_ref w)%nat ->
  dict_of w this !! "serial_number" = Some n ->
  Stroke_copy this w = Ok s w' ->
  s <> this /\
  dict_of w' s !! "serial_number" = Some n /\
  dict_of w' this !! "serial_number" = Some n /\
  serial_number w' = serial_number w + 1 /\
  dict_of w' s !! "rendered" = Some (VBool false) /\
  (forall name x, name <> "rendered" -> dict_of w this !! name = Some x ->
                  dict_of w' s !! name = Some x).
Proof.
  intros Hlt Hn H.
  apply Stroke_copy_ok in H as (_ & -> & Hser & _ & _ & _ & Hother & Hs).
  assert (Hne : this <> next_ref w) by lia.
  specialize (Hs Hne).
  assert (Hattr : forall name x, name <> "rendered" ->
            dict_of w this !! name = Some x ->
            dict_of w' (next_ref w) !! name = Some x).
  { intros name x Hname Hx. rewrite Hs, lookup_insert_ne by done.
    apply lookup_union_Some_raw. by left. }
  split; [lia|]. split; [by apply Hattr|]. split.
  { rewrite Hother by done. done. }
  split; [done|]. split; [|done].
  rewrite Hs. by rewrite lookup_insert_eq.
Qed.

(** *** Claim C8 *)

(** C8 (amended). On a fresh copy of a finished stroke every call of
    [change_brush_settings] made before the copy is rendered succeeds,
    however many there are; the call fails its assertion when the stroke
    is not finished, when its [rendered] flag is set, and so after
    [render]. *)
Theorem change_brush_settings_until_rendered w this s w1 :
  (this < next_ref w)%nat ->
  Stroke_copy this w = Ok s w1 ->
  (forall vs, exists w2, change_brush_settings_each s vs w1 = Ok tt w2) /\
  (forall w0 o v f, dict_of w0 o !! "finished" = Some f -> truthy f = false ->
     change_brush_settings o v w0 = Raise AssertionError) /\
  (forall w0 o v f r, dict_of w0 o !! "finished" = Some f ->
     dict_of w0 o !! "rendered" = Some r -> truthy r = true ->
     change_brush_settings o v w0 = Raise AssertionError) /\
  (forall w0 o v w0', Stroke_render o w0 = Ok tt w0' ->
     change_brush_settings o v w0' = Raise AssertionError).
Proof.
  intros Hlt H.
  assert (Hfin : forall w0 o v f r, dict_of w0 o !! "finished" = Some f ->
     dict_of w0 o !! "rendered" = Some r -> truthy r = true ->
     change_brush_settings o v w0 = Raise AssertionError).
  { intros w0 o v f r Hf Hr Ht. unfold change_brush_settings.
    rewrite (bind_run _ _ _ _ _ (getattr_run _ _ _ _ Hf)).
    destruct (truthy f); cbn; [|done].
    rewrite (bind_run _ _ _ _ _ (getattr_run _ _ _ _ Hr)).
    by rewrite Ht. }
  split; [|split; [|split]].
  - intros vs.
    apply Stroke_copy_ok in H as ((f & Hf & Ht) & -> & _ & _ & _ & _ & _ & Hs).
    assert (Hne : this <> next_ref w) by lia. specialize (Hs Hne).
    apply (change_brush_settings_each_ok _ vs w1 f (VBool false)); try done.
    + rewrite Hs, lookup_insert_ne by done.
      apply lookup_union_Some_raw. by left.
    + rewrite Hs. by rewrite lookup_insert_eq.
  - intros w0 o v f Hf Ht. unfold change_brush_settings.
    rewrite (bind_run _ _ _ _ _ (getattr_run _ _ _ _ Hf)).
    by rewrite Ht.
  - exact Hfin.
  - intros w0 o v w0' Hr.
    apply Stroke_render_ok in Hr as ((f & Hf & Ht) & Hd & _).
    apply (Hfin w0' o v f (VBool true)); try done.
    + rewrite Hd. by rewrite lookup_insert_ne.
    + rewrite Hd. by rewrite lookup_insert_eq.
Qed.

End StrokeFacts.

(** ** strokes_from_to *)

Section LayerFacts.
Context {ops : SurfaceOps}.
Implicit Types (w : World ops) (a b r : Struct) (c cache : Cache ops).

Lemma strokes_from_to_Some w a b new :
  strokes_from_to w a b = Some new <->
  s_background a = s_background b /\
  list_of w (s_strokes b) = list_of w (s_strokes a) ++ new.
Proof.
  unfold strokes_from_to.
  destruct (bool_decide_reflect (s_background a = s_background b)) as [Hbg|Hbg]; cbn.
  - destruct (bool_decide_reflect
                (list_of w (s_strokes a)
                 = take (length (list_of w (s_strokes a))) (list_of w (s_strokes b))))
      as [Hpre|Hpre].
    + split.
      * intros [= <-]. split; [done|].
        rewrite <- (take_drop (length (list_of w (s_strokes a)))
                      (list_of w (s_strokes b))) at 1.
        by rewrite <- Hpre.
      * intros [_ Hb]. f_equal. rewrite Hb. by rewrite drop_app_length.
    + split; [discriminate|]. intros [_ Hb]. destruct Hpre.
      rewrite Hb. by rewrite take_app_length.
  - split; [discriminate|]. by intros [? _].
Qed.

Lemma strokes_from_to_None w a b :
  strokes_from_to w a b = None <->
  s_background a <> s_background b \/
  ~ list_of w (s_strokes a) `prefix_of` list_of w (s_strokes b).
Proof.
  destruct (strokes_from_to w a b) as [new|] eqn:E.
  - apply strokes_from_to_Some in E as [Hbg Hb]. split; [discriminate|].
    intros [?|Hn]; [done|]. destruct Hn. by exists new.
  - split; [|done]. intros _.
    destruct (decide (s_background a = s_background b)) as [Hbg|]; [|by left].
    right. intros [k Hk].
    assert (strokes_from_to w a b = Some k) as E' by by apply strokes_from_to_Some.
    congruence.
Qed.

(** *** Claim C2 *)

(** C2. [count_strokes_from(r)] is [infinity] when the background of [r]
    is not that of the layer, and when the strokes of [r] are not a prefix
    of the strokes of the layer; otherwise it is the number of strokes of
    the layer less the number of strokes of [r]. *)
Theorem count_strokes_from_spec w r :
  (s_background r <> background (self w) -> count_strokes_from w r = infinity) /\
  (~ list_of w (s_strokes r) `prefix_of` list_of w (strokes (self w)) ->
   count_strokes_from w r = infinity) /\
  (s_background r = background (self w) ->
   list_of w (s_strokes r) `prefix_of` list_of w (strokes (self w)) ->
   count_strokes_from w r
   = Z.of_nat (length (list_of w (strokes (self w))))
     - Z.of_nat (length (list_of w (s_strokes r)))).
Proof.
  unfold count_strokes_from. split; [|split].
  - intros Hbg.
    assert (strokes_from_to w r (layer_struct (self w)) = None) as ->; [|done].
    apply strokes_from_to_None. by left.
  - intros Hpre.
    assert (strokes_from_to w r (layer_struct (self w)) = None) as ->; [|done].
    apply strokes_from_to_None. by right.
  - intros Hbg [k Hk].
    assert (strokes_from_to w r (layer_struct (self w)) = Some k) as ->.
    { by apply strokes_from_to_Some. }
    cbn in Hk. rewrite Hk, length_app. lia.
Qed.

Lemma count_strokes_from_nonneg w r : 0 <= count_strokes_from w r.
Proof.
  unfold count_strokes_from, infinity.
  destruct (strokes_from_to _ _ _); lia.
Qed.

Lemma count_strokes_from_le w r :
  count_strokes_from w r < infinity ->
  count_strokes_from w r <= Z.of_nat (length (list_of w (strokes (self w)))).
Proof.
  unfold count_strokes_from.
  destruct (strokes_from_to _ _ _) as [k|] eqn:E; [|lia].
  apply strokes_from_to_Some in E as [_ E]. cbn in E.
  rewrite E, length_app. lia.
Qed.

End LayerFacts.

(** ** The frame of the methods *)

Section Frames.
Context {ops : SurfaceOps}.
Implicit Types (w : World ops) (c cache : Cache ops).

Lemma steps_refl w : steps w w.
Proof. unfold steps. naive_solver. Qed.

Lemma steps_trans w0 w1 w2 : steps w0 w1 -> steps w1 w2 -> steps w0 w2.
Proof.
  intros (Hn & Hs & Hb & Hc & Hser & Hr & Hl & Ho)
         (Hn' & Hs' & Hb' & Hc' & Hser' & Hr' & Hl' & Ho').
  unfold steps. repeat split; try congruence; try lia.
  - intros r Hlt Hne. rewrite Hl', Hl; try done; try lia.
  - intros o name Hname. by rewrite Ho', Ho.
Qed.

(** The new cache entry that [populate_cache] appends in the world [w]. *)
Lemma populate_cache_cases w :
  populate_cache w = Ok tt w \/
  (strokes_to_cache (self w) <= Z.of_nat (length (list_of w (rref w))) /\
   close_enough w (caches (self w)) = false /\
   populate_cache w =
   Ok tt (mkWorld (objs w)
            (<[S (next_ref w) := list_of w (rref w)]> (lists w))
            (S (S (next_ref w))) (serial_number w)
            (set_caches
               (drop_caches (caches (self w))
                ++ [mkCache (next_ref w) (S (next_ref w))
                      (s_background (rendered (self w)))
                      (surface_save_snapshot (surface (self w)))])
               (self w)))).
Proof.
  unfold populate_cache, bind, get; cbn. fold (rref w).
  destruct (Z.ltb_spec (Z.of_nat (length (list_of w (rref w))))
              (strokes_to_cache (self w))); [by left|].
  destruct (close_enough w (caches (self w))) eqn:E; [by left|].
  right. split; [done|]. split; [done|]. reflexivity.
Qed.

Lemma drop_caches_drop (cs : list (Cache ops)) :
  drop_caches cs = drop (length cs - 2) cs.
Proof.
  induction cs as [|c cs IH]; [done|].
  cbn [drop_caches]. unfold max_caches.
  destruct (Z.gtb_spec (Z.of_nat (length (c :: cs))) (3 - 1)) as [H|H]; cbn in H.
  - rewrite IH. cbn [length].
    replace (S (length cs) - 2)%nat with (S (length cs - 2)) by lia. done.
  - cbn [length]. replace (S (length cs) - 2)%nat with 0%nat by lia. done.
Qed.

Lemma drop_caches_length (cs : list (Cache ops)) : (length (drop_caches cs) <= 2)%nat.
Proof. rewrite drop_caches_drop, length_drop. lia. Qed.

Lemma drop_caches_sublist (cs : list (Cache ops)) : drop_caches cs `sublist_of` cs.
Proof. rewrite drop_caches_drop. apply sublist_drop. Qed.

Lemma list_of_insert_eq w r l :
  list_of (set_lists <[r := l]> w) r = l.
Proof. unfold list_of; cbn. by rewrite lookup_insert_eq. Qed.

Lemma populate_cache_steps w u w' :
  populate_cache w = Ok u w' ->
  steps w w' /\ rref w' = rref w /\ objs w' = objs w /\
  surface (self w') = surface (self w) /\
  ((rref w < next_ref w)%nat -> lists w' !! rref w = lists w !! rref w).
Proof.
  destruct (populate_cache_cases w) as [->|(_ & _ & ->)]; intros [= <- <-].
  - split; [apply steps_refl|]. done.
  - split.
    + unfold steps, rref, dict_of; cbn. repeat split; try done; try lia.
      intros r Hlt _. by rewrite lookup_insert_ne by lia.
    + unfold rref; cbn. repeat split; try done.
      intros. by rewrite lookup_insert_ne by lia.
Qed.

Lemma populate_cache_wf w u w' :
  populate_cache w = Ok u w' -> wf w -> wf w'.
Proof.
  destruct (populate_cache_cases w) as [->|(_ & _ & ->)]; intros [= <- <-]; [done|].
  intros (Hr & Hs & Hnd & Hall). unfold wf, rref in *; cbn.
  split; [lia|]. split; [lia|].
  assert (Hsub := drop_caches_sublist (caches (self w))).
  split.
  - rewrite fmap_app. apply NoDup_app. split; [|split].
    + eapply sublist_NoDup; [exact Hnd|]. by apply fmap_sublist.
    + intros x Hx Hx'. cbn in Hx'. apply list_elem_of_singleton in Hx'. subst x.
      apply list_elem_of_fmap in Hx as (c & Hc & Hin).
      rewrite Forall_forall in Hall.
      assert (c ∈ caches (self w)) as Hin' by (eapply elem_of_sublist; eauto).
      apply Hall in Hin'. lia.
    + cbn. apply NoDup_singleton.
  - apply Forall_app. split.
    + rewrite Forall_forall in Hall |- *. intros c Hin.
      assert (c ∈ caches (self w)) as Hin' by (eapply elem_of_sublist; eauto).
      apply Hall in Hin'. lia.
    + apply Forall_singleton. cbn. lia.
Qed.

Lemma populate_cache_bounded w u w' :
  populate_cache w = Ok u w' -> caches_bounded w -> caches_bounded w'.
Proof.
  destruct (populate_cache_cases w) as [->|(_ & _ & ->)]; intros [= <- <-]; [done|].
  intros _. unfold caches_bounded; cbn. rewrite length_app; cbn.
  pose proof (drop_caches_length (caches (self w))). lia.
Qed.

Lemma Stroke_render_steps s w u w' :
  Stroke_render s w = Ok u w' ->
  steps w w' /\ rref w' = rref w /\ lists w' = lists w /\
  next_ref w' = next_ref w /\ caches (self w') = caches (self w) /\
  strokes (self w') = strokes (self w).
Proof.
  intros H. apply Stroke_render_ok in H
    as (_ & Hs & Ho & Hl & Hn & Hser & bs & st & seed & data & _ & _ & _ & _ & Hself).
  unfold steps, rref. rewrite Hself, Hl, Hn, Hser; cbn.
  repeat split; try done; try lia.
  intros o name Hname. destruct (decide (o = s)) as [->|Hne].
  - rewrite Hs. by rewrite lookup_insert_ne.
  - by rewrite Ho.
Qed.

Lemma list_append_run (r x : nat) w :
  list_append r x w = Ok tt (set_lists <[r := list_of w r ++ [x]]> w).
Proof. reflexivity. Qed.

(** One iteration leaves [caching] as [caching_step] says, and the loop
    adds the strokes it is given to the list of [self.rendered]. *)
Lemma render_loop_ok new : forall caching w u w',
  render_loop caching new w = Ok u w' -> wf w ->
  wf w' /\ steps w w' /\ rref w' = rref w /\
  list_of w' (rref w) = list_of w (rref w) ++ new /\
  (caches_bounded w -> caches_bounded w').
Proof.
  induction new as [|s new IH]; intros caching w u w' H Hwf.
  - cbn in H. injection H as _ <-. rewrite app_nil_r.
    split; [done|]. split; [apply steps_refl|]. done.
  - cbn [render_loop] in H.
    bind_inv H. apply Stroke_render_steps in Hrun as (St1 & Hr1 & Hl1 & Hn1 & Hc1 & Hs1).
    bind_inv H. injection Hrun as <- <-.
    bind_inv H. rewrite list_append_run in Hrun. injection Hrun as _ <-.
    fold (rref w0) in H.
    set (w1 := set_lists _ w0) in H.
    assert (Hwf0 : wf w0).
    { destruct Hwf as (? & ? & ? & ?). unfold wf. rewrite Hr1, Hn1, Hc1, Hs1. done. }
    assert (Hwf1 : wf w1) by exact Hwf0.
    assert (St01 : steps w0 w1).
    { unfold steps, w1, rref, dict_of; cbn. repeat split; try done; try lia.
      intros r _ Hne. by rewrite lookup_insert_ne. }
    assert (Hlist1 : list_of w1 (rref w) = list_of w (rref w) ++ [s]).
    { unfold w1. rewrite <- Hr1, list_of_insert_eq. unfold list_of. by rewrite Hl1. }
    bind_inv H.
    assert (exists St2 : steps w1 w2, wf w2 /\ rref w2 = rref w1 /\
              list_of w2 (rref w) = list_of w1 (rref w) /\
              (caches_bounded w1 -> caches_bounded w2)) as (St2 & Hwf2 & Hr2 & Hl2 & Hb2).
    { destruct (caching_step caching s).
      - pose proof (populate_cache_steps _ _ _ Hrun) as (St & Hr & _ & _ & Hl).
        exists St. split; [by eapply populate_cache_wf|]. split; [done|].
        split; [|by eapply populate_cache_bounded].
        unfold list_of. replace (rref w) with (rref w1) by (by rewrite <- Hr1).
        rewrite Hl; [done|]. apply Hwf1.
      - injection Hrun as _ <-. exists (steps_refl _). done. }
    apply IH in H as (Hwf' & St' & Hr' & Hl' & Hb'); [|done].
    split; [done|]. split.
    { eapply steps_trans; [exact St1|]. eapply steps_trans; [exact St01|].
      eapply steps_trans; [exact St2|]. exact St'. }
    split; [by rewrite Hr', Hr2|].
    split.
    { replace (rref w2) with (rref w) in Hl' by (by rewrite Hr2, <- Hr1).
      rewrite Hl', Hl2, Hlist1, <- app_assoc. done. }
    intros Hb. apply Hb', Hb2. unfold caches_bounded in *. cbn. by rewrite Hc1.
Qed.

End Frames.

(** ** The three strategies *)

Section Strategies.
Context {ops : SurfaceOps}.
Implicit Types (w : World ops) (c cache : Cache ops).

(** A completed [render_new_strokes] has passed its last assertion. *)
Lemma render_new_strokes_assert w u w' :
  render_new_strokes w = Ok u w' ->
  list_of w' (rref w') = list_of w' (strokes (self w')).
Proof.
  unfold render_new_strokes. intros H.
  bind_inv H. injection Hrun as <- <-.
  destruct (strokes_from_to w _ _) as [new|]; [|discriminate].
  bind_inv H. bind_inv H. bind_inv H. injection Hrun1 as <- <-.
  apply py_assert_ok in H as [H ->]. by apply bool_decide_eq_true in H.
Qed.

Lemma render_new_strokes_ok w u w' :
  render_new_strokes w = Ok u w' -> wf w ->
  wf w' /\ steps w w' /\ rref w' = rref w /\
  (caches_bounded w -> caches_bounded w') /\
  exists new,
    strokes_from_to w (rendered (self w)) (layer_struct (self w)) = Some new /\
    list_of w' (rref w) = list_of w (rref w) ++ new.
Proof.
  unfold render_new_strokes. intros H Hwf.
  bind_inv H. injection Hrun as <- <-.
  destruct (strokes_from_to w _ _) as [new|]; [|discriminate].
  bind_inv H.
  assert (w0 = w) as ->.
  { destruct (_ >? _); [destruct (py_index _ _)|]; by inversion Hrun. }
  bind_inv H. apply render_loop_ok in Hrun0 as (Hwf' & St & Hr & Hl & Hb); [|done].
  bind_inv H. injection Hrun0 as <- <-.
  apply py_assert_ok in H as [_ ->]. eauto 10.
Qed.

Lemma list_remove_Some cache (cs cs' : list (Cache ops)) :
  list_remove cache cs = Some cs' ->
  exists l1 c l2, cs = l1 ++ c :: l2 /\ cs' = l1 ++ l2 /\ c_id c = c_id cache.
Proof.
  revert cs'. induction cs as [|x cs IH]; intros cs'; cbn; [discriminate|].
  destruct (bool_decide_reflect (c_id x = c_id cache)) as [Hid|Hid].
  - intros [= <-]. by exists [], x, cs.
  - destruct (list_remove cache cs) as [r|]; [|discriminate].
    intros [= <-]. destruct (IH r eq_refl) as (l1 & c & l2 & -> & -> & Hc).
    by exists (x :: l1), c, l2.
Qed.

Lemma list_remove_elem_of cache (cs : list (Cache ops)) :
  cache ∈ cs -> is_Some (list_remove cache cs).
Proof.
  induction cs as [|x cs IH]; [by intros ?%elem_of_nil|].
  intros Hin. cbn. destruct (bool_decide_reflect (c_id x = c_id cache)); [done|].
  apply elem_of_cons in Hin as [->|Hin]; [done|].
  destruct (IH Hin) as [r ->]. done.
Qed.

(** With distinct cache objects, [remove] then [append] moves [cache]
    itself to the end and keeps the other entries in their order. *)
Lemma list_remove_NoDup cache (cs cs' : list (Cache ops)) :
  NoDup (c_id <$> cs) -> cache ∈ cs -> list_remove cache cs = Some cs' ->
  exists l1 l2, cs = l1 ++ cache :: l2 /\ cs' = l1 ++ l2.
Proof.
  intros Hnd Hin H.
  apply list_remove_Some in H as (l1 & c & l2 & -> & -> & Hc).
  exists l1, l2. split; [|done]. f_equal. f_equal.
  assert (c ∈ l1 ++ c :: l2) as Hcin.
  { apply elem_of_app. right. apply list_elem_of_here. }
  apply list_elem_of_lookup in Hin as [i Hi].
  apply list_elem_of_lookup in Hcin as [j Hj].
  assert (i = j) as ->.
  { eapply NoDup_lookup; [exact Hnd| |].
    - rewrite list_lookup_fmap, Hi. reflexivity.
    - rewrite list_lookup_fmap, Hj. cbn. by rewrite Hc. }
  congruence.
Qed.

(** A cache hit moves the entry to the end of [self.caches]. *)
Lemma use_cache_ok cache w u w' :
  use_cache cache w = Ok u w' -> wf w -> cache ∈ caches (self w) ->
  exists l1 l2,
    caches (self w) = l1 ++ cache :: l2 /\
    w' = set_self (set_caches ((l1 ++ l2) ++ [cache])) w.
Proof.
  unfold use_cache. intros H Hwf Hin.
  bind_inv H. injection Hrun as <- <-.
  destruct (list_remove cache (caches (self w))) as [cs|] eqn:Hrm; [|discriminate].
  destruct (list_remove_NoDup _ _ _ (proj1 (proj2 (proj2 Hwf))) Hin Hrm)
    as (l1 & l2 & Hcs & ->).
  injection H as _ <-. by exists l1, l2.
Qed.

(** [render_cached] and [render_from_empty] set [self.rendered] to a new
    list and go on with [render_new_strokes]. *)
Lemma render_restart w w1 u w' :
  render_new_strokes w1 = Ok u w' ->
  wf w -> steps w w1 -> rref w1 = next_ref w -> (next_ref w < next_ref w1)%nat ->
  caches (self w1) ≡ₚ caches (self w) ->
  wf w' /\ steps w w' /\ rref w' = next_ref w /\
  (caches_bounded w -> caches_bounded w') /\
  list_of w' (rref w') = list_of w' (strokes (self w')).
Proof.
  intros H (Hr & Hs & Hnd & Hall) St1 Hr1 Hn1 Hperm.
  assert (Hwf1 : wf w1).
  { destruct St1 as (_ & Hs1 & _). unfold wf. rewrite Hr1, Hs1, Hperm.
    split; [lia|]. split; [lia|]. split; [done|].
    eapply Forall_impl; [exact Hall|]. cbn. intros c ?. lia. }
  pose proof (render_new_strokes_assert _ _ _ H) as Heq.
  apply render_new_strokes_ok in H as (Hwf' & St & Hr' & Hb & _); [|done].
  split; [done|]. split; [by eapply steps_trans|]. split; [by rewrite Hr'|].
  split; [|done]. intros Hbd. apply Hb. unfold caches_bounded in *.
  by rewrite Hperm.
Qed.

Lemma render_cached_ok cache w u w' :
  render_cached cache w = Ok u w' -> wf w -> cache ∈ caches (self w) ->
  wf w' /\ steps w w' /\ rref w' = next_ref w /\
  (caches_bounded w -> caches_bounded w') /\
  list_of w' (rref w') = list_of w' (strokes (self w')).
Proof.
  unfold render_cached. intros H Hwf Hin.
  bind_inv H. apply use_cache_ok in Hrun as (l1 & l2 & Hcs & ->); [|done..].
  unfold bind, modify, get, new_list, alloc, ret in H; cbn -[render_new_strokes] in H.
  eapply render_restart; [exact H|done|..]; cbn; try done; try lia.
  - unfold steps, rref, dict_of; cbn. repeat split; try done; try lia.
    intros r Hlt _. by rewrite lookup_insert_ne by lia.
  - rewrite Hcs, <- app_assoc. apply Permutation_app_head.
    by rewrite <- Permutation_cons_append.
Qed.

Lemma render_from_empty_ok w u w' :
  render_from_empty w = Ok u w' -> wf w ->
  wf w' /\ steps w w' /\ rref w' = next_ref w /\
  (caches_bounded w -> caches_bounded w') /\
  list_of w' (rref w') = list_of w' (strokes (self w')).
Proof.
  unfold render_from_empty. intros H Hwf.
  bind_inv H. injection Hrun as <- <-.
  unfold bind, modify, get, new_list, alloc, ret in H.
  destruct (background (self w)) as [bg|] eqn:Hbg; cbn -[render_new_strokes] in H.
  all: eapply render_restart; [exact H|done|..]; cbn; try done; try lia.
  all: unfold steps, rref, dict_of; cbn; repeat split; try done; try lia.
  all: intros r Hlt _; by rewrite lookup_insert_ne by lia.
Qed.

End Strategies.

(** ** Selection of the cheapest option *)

Section Selection.
Context {ops : SurfaceOps}.
Implicit Types (w : World ops) (c cache : Cache ops) (x y best : Z * Closure)
  (l : list (Z * Closure)).

Lemma tuple_lt_spec x y :
  tuple_lt x y = true <->
  x.1 < y.1 \/ (x.1 = y.1 /\ fn_addr x.2 < fn_addr y.2).
Proof.
  unfold tuple_lt. destruct (Z.eqb_spec x.1 y.1) as [E|E].
  - rewrite Z.ltb_lt. lia.
  - rewrite Z.ltb_lt. lia.
Qed.

Lemma min_from_elem_of l : forall best, min_from best l ∈ best :: l.
Proof.
  induction l as [|x l IH]; intros best; cbn.
  - apply list_elem_of_here.
  - specialize (IH (if tuple_lt x best then x else best)).
    apply elem_of_cons in IH as [->|IH].
    + destruct (tuple_lt x best); [apply list_elem_of_further|]; apply list_elem_of_here.
    + by do 2 apply list_elem_of_further.
Qed.

(** [min_from] returns the least tuple: no cost is below its cost, and
    among the options of that cost no function object is below its own. *)
Lemma min_from_least l : forall best y,
  y ∈ best :: l ->
  (min_from best l).1 <= y.1 /\
  (y.1 = (min_from best l).1 -> fn_addr (min_from best l).2 <= fn_addr y.2).
Proof.
  induction l as [|x l IH]; intros best y Hy; cbn.
  - apply list_elem_of_singleton in Hy as ->. lia.
  - set (b := if tuple_lt x best then x else best).
    assert (Hb : b.1 <= best.1 /\ (best.1 = b.1 -> fn_addr b.2 <= fn_addr best.2)).
    { unfold b. destruct (tuple_lt x best) eqn:E; [|lia].
      apply tuple_lt_spec in E. lia. }
    assert (Hx : b.1 <= x.1 /\ (x.1 = b.1 -> fn_addr b.2 <= fn_addr x.2)).
    { unfold b. destruct (tuple_lt x best) eqn:E; [lia|].
      assert (~ (x.1 < best.1 \/ (x.1 = best.1 /\ fn_addr x.2 < fn_addr best.2))).
      { rewrite <- tuple_lt_spec. congruence. }
      lia. }
    pose proof (IH b b (list_elem_of_here _ _)) as Hm.
    apply elem_of_cons in Hy as [->|Hy]; [lia|].
    apply elem_of_cons in Hy as [->|Hy]; [lia|].
    apply IH. by apply list_elem_of_further.
Qed.

Lemma py_min_elem_of l x : py_min l = Some x -> x ∈ l.
Proof.
  destruct l as [|b l]; [discriminate|]. intros [= <-]. apply min_from_elem_of.
Qed.

(** When the addresses grow along the list, comparing the tuples is
    comparing the costs, and the first of the cheapest options wins. *)
Lemma min_from_earliest l : forall best,
  addr_ordered (best :: l) -> min_from best l = earliest_min_from best l.
Proof.
  induction l as [|x l IH]; intros best Hord; [done|]. cbn.
  assert (Hbx : fn_addr best.2 < fn_addr x.2).
  { apply (Hord 0%nat 1%nat); [done|done|lia]. }
  assert (tuple_lt x best = (x.1 <? best.1)) as ->.
  { unfold tuple_lt. destruct (Z.eqb_spec x.1 best.1) as [E|E]; [|done].
    rewrite E, Z.ltb_irrefl. apply Z.ltb_ge. lia. }
  apply IH. intros i j a b Hi Hj Hij.
  destruct (x.1 <? best.1).
  - apply (Hord (S i) (S j)); [done|done|lia].
  - destruct i as [|i].
    + cbn in Hi. injection Hi as <-.
      destruct j as [|j]; [lia|]. apply (Hord 0%nat (S (S j))); [done|done|lia].
    + destruct j as [|j]; [lia|]. apply (Hord (S (S i)) (S (S j))); [done|done|lia].
Qed.

(** The options of [rerender], one by one. *)
Lemma options_elem_of addr w x :
  x ∈ options addr w ->
  (x.1 = count_strokes_from w (rendered (self w)) /\ fn_code x.2 = RenderNewStrokes) \/
  (exists cache, cache ∈ caches (self w) /\
     x.1 = count_strokes_from w (cache_struct cache) + 3 /\
     fn_code x.2 = RenderCached cache) \/
  (x.1 = empty_cost w /\ fn_code x.2 = RenderFromEmpty).
Proof.
  unfold options. intros H.
  apply elem_of_cons in H as [->|H]; [by left|].
  apply elem_of_app in H as [H|H].
  - right; left. unfold cache_options in H.
    apply elem_of_lookup_imap_1 in H as (i & cache & -> & Hi).
    exists cache. split; [|done]. by eapply list_elem_of_lookup_2.
  - apply list_elem_of_singleton in H as ->. by right; right.
Qed.

Lemma options_addr_ordered addr w :
  (forall i j, (i < j)%nat -> addr i < addr j) -> addr_ordered (options addr w).
Proof.
  intros Hmono.
  assert (Hat : forall i x, options addr w !! i = Some x -> fn_addr x.2 = addr i).
  { intros i x. unfold options. destruct i as [|i]; cbn; [by intros [= <-]|].
    intros Hi. apply lookup_app_Some in Hi as [Hi|[Hlen Hi]].
    - unfold cache_options in Hi.
      apply list_lookup_imap_Some in Hi as (c & _ & ->). done.
    - unfold cache_options in *. rewrite length_imap in *.
      apply list_lookup_singleton_Some in Hi as [Hi <-]. cbn.
      f_equal. lia. }
  intros i j x y Hi Hj Hij. rewrite (Hat _ _ Hi), (Hat _ _ Hj). by apply Hmono.
Qed.

End Selection.

(** ** rerender *)

Section Rerender.
Context {ops : SurfaceOps}.
Implicit Types (w : World ops) (c cache : Cache ops) (f : Strategy).

(** The early exit. *)
Lemma rerender_early addr est w :
  count_strokes_from w (rendered (self w)) <= 1 ->
  rerender addr est w =
  ((if (count_strokes_from w (rendered (self w)) >? 0) && negb est
    then render_new_strokes else ret tt) ;;
   ret (count_strokes_from w (rendered (self w)))) w.
Proof.
  intros H. unfold rerender. unfold bind at 1, get.
  apply Z.leb_le in H. by rewrite H.
Qed.

(** The selection among all the options. *)
Lemma rerender_select addr est w :
  1 < count_strokes_from w (rendered (self w)) ->
  exists cost render,
    py_min (options addr w) = Some (cost, render) /\
    rerender addr est w =
    if est then Ok cost w else (run (fn_code render) ;; ret cost) w.
Proof.
  intros H. unfold rerender. unfold bind at 1, get.
  apply Z.leb_gt in H. rewrite H.
  destruct (py_min (options addr w)) as [[cost render]|] eqn:E; [|done].
  exists cost, render. split; [done|]. by destruct est.
Qed.

Lemma run_assert f w u w' :
  run f w = Ok u w' -> list_of w' (rref w') = list_of w' (strokes (self w')).
Proof.
  destruct f as [|cache|]; cbn [run]; intros H.
  - by eapply render_new_strokes_assert.
  - unfold render_cached in H. do 6 bind_inv H. by eapply render_new_strokes_assert.
  - unfold render_from_empty in H. do 5 bind_inv H. by eapply render_new_strokes_assert.
Qed.

Lemma run_ok f w u w' :
  run f w = Ok u w' -> wf w ->
  match f with RenderCached cache => cache ∈ caches (self w) | _ => True end ->
  wf w' /\ steps w w' /\ (caches_bounded w -> caches_bounded w').
Proof.
  destruct f as [|cache|]; cbn [run]; intros H Hwf Hin.
  - apply render_new_strokes_ok in H as (? & ? & _ & ? & _); done.
  - apply render_cached_ok in H as (? & ? & _ & ? & _); done.
  - apply render_from_empty_ok in H as (? & ? & _ & ? & _); done.
Qed.

Lemma count_zero_rendered w :
  count_strokes_from w (rendered (self w)) <= 0 ->
  list_of w (rref w) = list_of w (strokes (self w)).
Proof.
  unfold count_strokes_from, infinity.
  destruct (strokes_from_to _ _ _) as [new|] eqn:E; [|lia].
  apply strokes_from_to_Some in E as [_ E]. cbn in E. intros Hlen.
  destruct new; [|cbn in Hlen; lia]. by rewrite app_nil_r in E.
Qed.

Lemma rerender_ok addr est w cost w' :
  rerender addr est w = Ok cost w' -> wf w ->
  wf w' /\ steps w w' /\ (caches_bounded w -> caches_bounded w') /\
  (est = true -> w' = w).
Proof.
  intros H Hwf.
  destruct (Z.le_gt_cases (count_strokes_from w (rendered (self w))) 1) as [Hc|Hc].
  - rewrite rerender_early in H by done.
    bind_inv H. injection H as _ <-.
    destruct (_ && _) eqn:E.
    + apply andb_true_iff in E as [_ E]. apply negb_true_iff in E as ->.
      apply render_new_strokes_ok in Hrun as (? & ? & _ & ? & _); done.
    + injection Hrun as _ <-. split; [done|]. split; [apply steps_refl|]. done.
  - destruct (rerender_select addr est w Hc) as (c & render & Hmin & Hre).
    rewrite Hre in H. destruct est.
    + injection H as _ <-. split; [done|]. split; [apply steps_refl|]. done.
    + bind_inv H. injection H as _ <-.
      apply run_ok in Hrun as (? & ? & ?); [done|done|].
      apply py_min_elem_of, options_elem_of in Hmin
        as [[_ Hf]|[(cache & Hin & _ & Hf)|[_ Hf]]]; cbn in Hf; rewrite Hf; done.
Qed.

(** A completed [rerender(False)] has made [self.rendered.strokes] equal
    to [self.strokes]. *)
Lemma rerender_assert addr w cost w' :
  rerender addr false w = Ok cost w' ->
  list_of w' (s_strokes (rendered (self w'))) = list_of w' (strokes (self w')).
Proof.
  intros H.
  destruct (Z.le_gt_cases (count_strokes_from w (rendered (self w))) 1) as [Hc|Hc].
  - rewrite rerender_early in H by done.
    bind_inv H. injection H as _ <-.
    destruct (Z.gtb_spec (count_strokes_from w (rendered (self w))) 0) as [Hp|Hp];
      cbn [andb negb] in Hrun.
    + by eapply render_new_strokes_assert.
    + injection Hrun as _ <-. by apply count_zero_rendered.
  - destruct (rerender_select addr false w Hc) as (c & render & _ & Hre).
    rewrite Hre in H. bind_inv H. injection H as _ <-.
    by eapply run_assert.
Qed.

(** *** Claim C4 *)

(** C4. When continuing from what is rendered costs at most 1,
    [rerender] returns that cost whatever the caches and the other options
    are; it leaves the world as it is when the cost is 0 and when it only
    estimates, and otherwise, the cost being 1, it runs
    [render_new_strokes], which renders the one new stroke onto the
    surface as it is, with no snapshot or background loaded. *)
Theorem rerender_early_exit addr est w :
  count_strokes_from w (rendered (self w)) <= 1 ->
  (count_strokes_from w (rendered (self w)) = 0 \/ est = true ->
   rerender addr est w = Ok (count_strokes_from w (rendered (self w))) w) /\
  (count_strokes_from w (rendered (self w)) = 1 ->
   rerender addr false w = (render_new_strokes ;; ret 1) w /\
   forall cost w', rerender addr false w = Ok cost w' ->
     cost = 1 /\
     exists s bs st seed data,
       list_of w (strokes (self w)) = list_of w (rref w) ++ [s] /\
       dict_of w s !! "brush_settings" = Some bs /\
       dict_of w s !! "brush_state" = Some st /\
       dict_of w s !! "seed" = Some seed /\
       dict_of w s !! "stroke_data" = Some data /\
       surface (self w') = surface_replay bs st seed data (surface (self w))).
Proof.
  intros Hc. split.
  - intros Hz. rewrite rerender_early by done.
    assert ((count_strokes_from w (rendered (self w)) >? 0) && negb est = false) as ->.
    { destruct Hz as [->| ->]; [done|]. apply andb_false_r. }
    done.
  - intros H1. rewrite rerender_early by done. rewrite H1. cbn [Z.gtb Z.compare andb negb].
    split; [done|]. intros cost w' H.
    bind_inv H. injection H as <- <-. split; [done|].
    unfold count_strokes_from in H1. unfold render_new_strokes in Hrun.
    bind_inv Hrun. injection Hrun0 as <- <-.
    destruct (strokes_from_to w _ _) as [new|] eqn:E; [|discriminate].
    apply strokes_from_to_Some in E as [_ E]. cbn in E.
    destruct new as [|s [|]]; cbn in H1; try lia.
    bind_inv Hrun.
    assert (w1 = w) as ->.
    { destruct (_ >? _); [destruct (py_index _ _)|]; by inversion Hrun0. }
    bind_inv Hrun. bind_inv Hrun. injection Hrun2 as <- <-.
    apply py_assert_ok in Hrun as [_ ->].
    cbn [render_loop] in Hrun1.
    bind_inv Hrun1. apply Stroke_render_ok in Hrun
      as (_ & _ & _ & _ & _ & _ & bs & st & seed & data & Hbs & Hst & Hseed & Hdata & Hself).
    exists s, bs, st, seed, data. do 5 (split; [done|]).
    bind_inv Hrun1. injection Hrun as <- <-.
    bind_inv Hrun1. rewrite list_append_run in Hrun. injection Hrun as _ <-.
    bind_inv Hrun1. injection Hrun1 as _ <-.
    assert (surface (self w2) = surface (self w0)) as ->.
    { destruct (caching_step a0 s).
      - apply populate_cache_steps in Hrun as (_ & _ & _ & Hs & _). by rewrite Hs.
      - by injection Hrun as _ <-. }
    by rewrite Hself.
Qed.

(** *** Claim C9 *)

(** C9. [rerender(True)] returns the least of the costs of all the options
    and leaves the world as it was: the strokes, what is rendered, the
    caches and the surface. *)
Theorem rerender_estimate_only addr w :
  exists cost,
    rerender addr true w = Ok cost w /\
    (exists o, o ∈ options addr w /\ o.1 = cost) /\
    (forall o, o ∈ options addr w -> cost <= o.1).
Proof.
  destruct (Z.le_gt_cases (count_strokes_from w (rendered (self w))) 1) as [Hc|Hc].
  - exists (count_strokes_from w (rendered (self w))). split; [|split].
    + rewrite rerender_early by done. by rewrite andb_false_r.
    + eexists. split; [apply list_elem_of_here|done].
    + intros o Ho. apply options_elem_of in Ho
        as [[-> _]|[(cache & _ & -> & _)|[-> _]]]; [lia| |].
      * pose proof (count_strokes_from_nonneg w (cache_struct cache)). lia.
      * assert (count_strokes_from w (rendered (self w)) < infinity)
          as Hfin by (unfold infinity; lia).
        apply count_strokes_from_le in Hfin. unfold empty_cost.
        destruct (background (self w)); lia.
  - destruct (rerender_select addr true w Hc) as (cost & render & Hmin & Hre).
    exists cost. split; [done|]. split.
    + exists (cost, render). split; [|done]. by apply py_min_elem_of.
    + intros o Ho. destruct (options addr w) as [|b l] eqn:E; [discriminate|].
      injection Hmin as Hmin.
      pose proof (min_from_least l b o Ho) as [Hle _]. by rewrite Hmin in Hle.
Qed.

End Rerender.

(** ** The caches *)

Section Caches.
Context {ops : SurfaceOps}.
Implicit Types (w : World ops) (c cache : Cache ops) (cs : list (Cache ops))
  (e : CacheEvent) (m : gmap nat nat).

(** What [populate_cache] does to [self.caches] is the event [Populated]. *)
Lemma populate_cache_event w u w' :
  populate_cache w = Ok u w' ->
  caches (self w') = caches (self w) \/
  exists c,
    cache_event (Populated c) (caches (self w)) = Some (caches (self w')) /\
    c_id c = next_ref w /\ c_strokes c = S (next_ref w) /\
    c_background c = s_background (rendered (self w)) /\
    c_snapshot c = surface_save_snapshot (surface (self w)) /\
    list_of w' (c_strokes c) = list_of w (rref w) /\
    rref w' = rref w.
Proof.
  destruct (populate_cache_cases w) as [->|(_ & _ & ->)]; intros [= <- <-]; [by left|].
  right. eexists. cbn. split; [reflexivity|]. cbn.
  do 4 (split; [done|]). split; [|done].
  unfold list_of at 1; cbn. by rewrite lookup_insert_eq.
Qed.

Lemma StronglySorted_mono {A} (R R' : relation A) (l : list A) :
  (forall x y, x ∈ l -> y ∈ l -> R x y -> R' x y) ->
  StronglySorted R l -> StronglySorted R' l.
Proof.
  induction l as [|a l IH]; intros Himp Hs; [constructor|].
  apply StronglySorted_inv in Hs as [Hs Hall]. constructor.
  - apply IH; [|done]. intros x y Hx Hy. apply Himp; by apply list_elem_of_further.
  - rewrite Forall_forall in Hall |- *. intros y Hy.
    apply Himp; [apply list_elem_of_here|by apply list_elem_of_further|by apply Hall].
Qed.

(** Appending the entry used at time [t] to a part of the list keeps the
    invariant. *)
Lemma lru_inv_use t m cs c :
  (length cs <= 2)%nat ->
  NoDup (c_id <$> cs) ->
  c_id c ∉ c_id <$> cs ->
  Forall (fun c => exists k, m !! c_id c = Some k /\ (k < t)%nat) cs ->
  StronglySorted (used_before m) cs ->
  lru_inv (S t) (<[c_id c := t]> m) (cs ++ [c]).
Proof.
  intros Hlen Hnd Hnotin Hall Hs.
  assert (Hne : forall x, x ∈ cs -> c_id x <> c_id c).
  { intros x Hx Heq. apply Hnotin. rewrite <- Heq. by apply list_elem_of_fmap_2. }
  rewrite Forall_forall in Hall.
  unfold lru_inv. split; [|split; [|split]].
  - rewrite fmap_app. apply NoDup_app. split; [done|]. split.
    + intros x Hx Hx'. cbn in Hx'. apply list_elem_of_singleton in Hx'. by subst x.
    + cbn. apply NoDup_singleton.
  - apply Forall_app. split.
    + apply Forall_forall. intros x Hx. destruct (Hall x Hx) as (k & Hk & Hlt).
      exists k. rewrite lookup_insert_ne by (by apply not_eq_sym, Hne). split; [done|lia].
    + apply Forall_singleton. exists t. rewrite lookup_insert_eq. split; [done|lia].
  - apply StronglySorted_app. split; [|split].
    + intros x y Hx Hy. apply list_elem_of_singleton in Hy as ->.
      destruct (Hall x Hx) as (k & Hk & Hlt). exists k, t.
      rewrite lookup_insert_ne by (by apply not_eq_sym, Hne).
      rewrite lookup_insert_eq. done.
    + eapply StronglySorted_mono; [|exact Hs].
      intros x y Hx Hy (k & k' & Hk & Hk' & Hlt). exists k, k'.
      rewrite !lookup_insert_ne by (by apply not_eq_sym, Hne). done.
    + repeat constructor.
  - rewrite length_app. cbn. lia.
Qed.

Lemma lru_inv_event t m cs e cs' :
  lru_inv t m cs ->
  cache_event e cs = Some cs' ->
  match e with Populated c => m !! c_id c = None | Used _ => True end ->
  lru_inv (S t) (<[c_id (event_cache e) := t]> m) cs'.
Proof.
  intros (Hnd & Hall & Hs & Hlen) He Hnew. destruct e as [c|c]; cbn in *.
  - injection He as <-.
    pose proof (drop_caches_sublist cs) as Hsub.
    rewrite drop_caches_drop in *.
    apply lru_inv_use.
    + rewrite length_drop. lia.
    + eapply sublist_NoDup; [exact Hnd|]. by apply fmap_sublist.
    + intros Hin. apply list_elem_of_fmap in Hin as (x & Hx & Hin).
      rewrite Forall_forall in Hall.
      destruct (Hall x) as (k & Hk & _); [by eapply elem_of_sublist|].
      congruence.
    + rewrite Forall_forall in Hall |- *. intros x Hx. apply Hall.
      by eapply elem_of_sublist.
    + rewrite <- (take_drop (length cs - 2) cs) in Hs.
      by apply StronglySorted_app_1_r in Hs.
  - destruct (list_remove c cs) as [r|] eqn:Hrm; [|discriminate].
    injection He as <-.
    apply list_remove_Some in Hrm as (l1 & c' & l2 & -> & -> & Hid).
    rewrite fmap_app, fmap_cons, Hid in Hnd.
    apply NoDup_app in Hnd as (Hnd1 & Hdisj & Hnd2).
    apply NoDup_cons in Hnd2 as [Hnotin2 Hnd2].
    apply Forall_app in Hall as [Hall1 Hall2].
    apply Forall_cons in Hall2 as [_ Hall2].
    apply StronglySorted_app in Hs as (Hcross & Hs1 & Hs2).
    apply StronglySorted_inv in Hs2 as [Hs2 _].
    rewrite length_app in Hlen. cbn in Hlen.
    apply lru_inv_use.
    + rewrite length_app. lia.
    + rewrite fmap_app. apply NoDup_app. split; [done|]. split; [|done].
      intros x Hx Hx'. apply (Hdisj x Hx). by apply list_elem_of_further.
    + rewrite fmap_app. intros [Hin|Hin]%elem_of_app; [|done].
      apply (Hdisj _ Hin). apply list_elem_of_here.
    + by apply Forall_app.
    + apply StronglySorted_app. split; [|done].
      intros x y Hx Hy. apply Hcross; [done|]. by apply list_elem_of_further.
Qed.

Lemma lru_inv_events es : forall t m cs cs',
  lru_inv t m cs -> cache_events es cs = Some cs' -> new_when_populated t es m ->
  lru_inv (t + length es) (use_times t es m) cs'.
Proof.
  induction es as [|e es IH]; intros t m cs cs' Hinv Hes Hnew; cbn in *.
  - injection Hes as <-. by rewrite Nat.add_0_r.
  - destruct (cache_event e cs) as [cs1|] eqn:He; [|discriminate].
    destruct Hnew as [Hnew Hrest].
    replace (t + S (length es))%nat with (S t + length es)%nat by lia.
    eapply IH; [|exact Hes|exact Hrest].
    by eapply lru_inv_event.
Qed.

End Caches.

(** ** Claims about the caches and the selection *)

Section CacheClaims.
Context {ops : SurfaceOps}.
Implicit Types (w : World ops) (c cache : Cache ops) (cs : list (Cache ops)).

(** *** Claim C3 *)


(** *** Claim C5 *)


(** *** Claim C10 *)


End CacheClaims.

(** ** Deferred caching in a long replay *)

Section Deferred.
Context {ops : SurfaceOps}.
Implicit Types (w : World ops) (new pre post rest : list nat).

(** Until the stroke that [caching] waits for comes, the loop only
    replays. *)
Lemma render_loop_deferred s rest pre : forall w,
  s ∉ pre ->
  render_loop (CachingFrom s) (pre ++ rest) w
  = (replay_only pre ;; render_loop (CachingFrom s) rest) w.
Proof.
  induction pre as [|x pre IH]; intros w Hnotin; [reflexivity|].
  apply not_elem_of_cons in Hnotin as [Hne Hnotin].
  cbn [app render_loop replay_only].
  assert (caching_step (CachingFrom s) x = CachingFrom s) as ->.
  { cbn. by rewrite bool_decide_eq_false_2. }
  rewrite bind_assoc. apply bind_ext. intros _ w1.
  rewrite bind_assoc. apply bind_ext. intros w0 w2.
  rewrite bind_assoc. apply bind_ext. intros _ w3.
  rewrite <- IH by done. reflexivity.
Qed.

(** When that stroke comes, caching is on. *)
Lemma render_loop_caching_from s post w :
  render_loop (CachingFrom s) (s :: post) w = render_loop CachingTrue (s :: post) w.
Proof. cbn. by rewrite bool_decide_eq_true_2. Qed.

Lemma replay_only_caches pre : forall w u w',
  replay_only pre w = Ok u w' -> caches (self w') = caches (self w).
Proof.
  induction pre as [|x pre IH]; intros w u w' H; cbn in H.
  - by injection H as _ <-.
  - bind_inv H. apply Stroke_render_steps in Hrun as (_ & _ & _ & _ & Hc & _).
    bind_inv H. injection Hrun as <- <-.
    bind_inv H. rewrite list_append_run in Hrun. injection Hrun as _ <-.
    apply IH in H. by rewrite H.
Qed.

(** [render_new_strokes] with more than twelve strokes, the threshold
    being six: [caching] is the stroke twelve from the end. *)
Lemma render_new_strokes_long w new :
  strokes_to_cache (self w) = 6 ->
  strokes_from_to w (rendered (self w)) (layer_struct (self w)) = Some new ->
  (12 < length new)%nat ->
  exists s,
    new !! (length new - 12)%nat = Some s /\
    render_new_strokes w = (render_loop (CachingFrom s) new ;; assert_rendered) w.
Proof.
  intros Hstc Hnew Hlen.
  destruct (lookup_lt_is_Some_2 new (length new - 12)%nat) as [s Hs]; [lia|].
  exists s. split; [done|].
  unfold render_new_strokes. unfold bind at 1, get. rewrite Hnew, Hstc.
  assert ((Z.of_nat (length new) >? 2 * 6) = true) as ->.
  { apply Z.gtb_lt. lia. }
  assert (py_index new (- 2 * 6) = Some s) as ->.
  { unfold py_index.
    assert ((- 2 * 6 <? 0) = true) as -> by done.
    assert ((Z.of_nat (length new) + - 2 * 6 <? 0) = false) as ->
      by (apply Z.ltb_ge; lia).
    replace (Z.to_nat (Z.of_nat (length new) + - 2 * 6)) with (length new - 12)%nat by lia.
    done. }
  reflexivity.
Qed.

(** *** Claim C6 *)

(** C6 (amended). With the threshold 6, when more than 12 strokes are to
    be replayed, [populate_cache] is not called until the stroke that is
    twelfth from the end is rendered, and it is called after that stroke
    and after each later one: caching resumes two threshold windows before
    the end of the replay. When the strokes to replay are distinct
    objects, these are the last 12 strokes exactly; when that stroke also
    occurs earlier in the list, caching resumes at its first
    occurrence. *)
Theorem caching_deferred_to_last_twelve w new :
  strokes_to_cache (self w) = 6 ->
  strokes_from_to w (rendered (self w)) (layer_struct (self w)) = Some new ->
  (12 < length new)%nat ->
  (exists pre s post,
     new = pre ++ s :: post /\
     new !! (length new - 12)%nat = Some s /\ (s ∉ pre) /\
     (length pre <= length new - 12)%nat /\
     render_new_strokes w
     = (replay_only pre ;; render_loop CachingTrue (s :: post) ;; assert_rendered) w) /\
  (NoDup new -> render_new_strokes w = replay_caching_last 12 new w) /\
  (forall pre w1 u w2, replay_only pre w1 = Ok u w2 ->
     caches (self w2) = caches (self w1)).
Proof.
  intros Hstc Hnew Hlen.
  destruct (render_new_strokes_long w new Hstc Hnew Hlen) as (s & Hs & Hrun).
  assert (Hsplit : forall pre post, new = pre ++ s :: post -> s ∉ pre ->
            render_new_strokes w
            = (replay_only pre ;; render_loop CachingTrue (s :: post) ;; assert_rendered) w).
  { intros pre post -> Hnotin. rewrite Hrun.
    erewrite bind_cong_l by (by apply render_loop_deferred).
    rewrite bind_assoc. apply bind_ext. intros _ w1.
    apply bind_cong_l, render_loop_caching_from. }
  split; [|split].
  - destruct (list_elem_of_split_l new s) as (pre & post & Heq & Hnotin).
    { by eapply list_elem_of_lookup_2. }
    exists pre, s, post. split; [done|]. split; [done|]. split; [done|].
    split; [|by apply Hsplit].
    destruct (decide (length pre <= length new - 12)%nat) as [|Hgt]; [done|].
    exfalso. apply Hnotin. rewrite Heq in Hs at 2.
    rewrite lookup_app_l in Hs by lia. by eapply list_elem_of_lookup_2.
  - intros Hnd. unfold replay_caching_last.
    pose proof (take_drop_middle new (length new - 12)%nat s Hs) as Heq.
    erewrite (drop_S new s (length new - 12)%nat) by done.
    apply Hsplit; [by symmetry|].
    intros [i [Hi Hlt]]%elem_of_take.
    pose proof (NoDup_lookup _ _ _ _ Hnd Hi Hs). lia.
  - intros pre w1 u w2. apply replay_only_caches.
Qed.

End Deferred.

(** ** Completion of rerender *)

Section Completion.
Context {ops : SurfaceOps}.
Implicit Types (w : World ops) (c cache : Cache ops) (new : list nat).

Lemma renderable_steps w w' s :
  steps w w' -> renderable w s = true -> renderable w' s = true.
Proof.
  intros (_ & _ & _ & _ & _ & _ & _ & Ho). unfold renderable.
  by rewrite !Ho by done.
Qed.

Lemma forallb_renderable_steps w w' new :
  steps w w' -> forallb (renderable w) new = true ->
  forallb (renderable w') new = true.
Proof.
  intros St. rewrite !forallb_forall. intros H s Hs.
  eapply renderable_steps; [exact St|]. by apply H.
Qed.

Lemma Stroke_render_total w s :
  renderable w s = true -> exists w', Stroke_render s w = Ok tt w'.
Proof.
  unfold renderable, Stroke_render. intros H.
  destruct (dict_of w s !! "finished") as [f|] eqn:Hf; [|done].
  destruct (dict_of w s !! "bbox") as [[| | | | |x y b h]|] eqn:Hb; try done.
  repeat (apply andb_true_iff in H as [H ?]).
  repeat match goal with
         | H : bool_decide (is_Some _) = true |- _ =>
             apply bool_decide_eq_true in H as [? H]
         end.
  rewrite (bind_run _ _ _ _ _ (getattr_run _ _ _ _ Hf)). rewrite H; cbn.
  rewrite (bind_run _ _ _ _ _ (getattr_run _ _ _ _ Hb)).
  repeat match goal with
         | H : dict_of w s !! ?name = Some _ |- context [getattr s ?name] =>
             rewrite (bind_run _ _ _ _ _ (getattr_run _ _ _ _ H))
         end.
  cbn. by eexists.
Qed.

Lemma render_loop_total new : forall caching w,
  forallb (renderable w) new = true ->
  exists w', render_loop caching new w = Ok tt w'.
Proof.
  induction new as [|s new IH]; intros caching w Hall; [by eexists|].
  cbn in Hall. apply andb_true_iff in Hall as [Hs Hall].
  cbn [render_loop].
  destruct (Stroke_render_total w s Hs) as [w1 H1].
  rewrite (bind_run _ _ _ _ _ H1).
  apply Stroke_render_steps in H1 as (St1 & _).
  unfold bind at 1, get. rewrite (bind_run _ _ _ _ _ (list_append_run _ _ _)).
  match goal with |- context [set_lists ?f w1] => set (w2 := set_lists f w1) end.
  assert (St2 : steps w1 w2).
  { unfold steps, w2, rref, dict_of; cbn. repeat split; try done; try lia.
    intros r _ Hne. by rewrite lookup_insert_ne. }
  assert (exists w3, (match caching_step caching s with
                      | CachingTrue => populate_cache
                      | CachingFrom _ => ret tt
                      end) w2 = Ok tt w3 /\ steps w2 w3) as (w3 & H3 & St3).
  { destruct (caching_step caching s).
    - destruct (populate_cache_cases w2) as [H|(_ & _ & H)].
      + exists w2. split; [done|apply steps_refl].
      + eexists. split; [exact H|]. by apply populate_cache_steps in H as [? _].
    - exists w2. split; [done|apply steps_refl]. }
  rewrite (bind_run _ _ _ _ _ H3). apply IH.
  eapply forallb_renderable_steps; [|exact Hall].
  eapply steps_trans; [exact St1|]. by eapply steps_trans.
Qed.

Lemma render_new_strokes_total w new :
  wf w -> 0 <= strokes_to_cache (self w) ->
  strokes_from_to w (rendered (self w)) (layer_struct (self w)) = Some new ->
  forallb (renderable w) new = true ->
  exists w', render_new_strokes w = Ok tt w'.
Proof.
  intros Hwf Hstc Hnew Hall. unfold render_new_strokes.
  unfold bind at 1, get. rewrite Hnew.
  assert (exists caching,
            (if Z.of_nat (length new) >? 2 * strokes_to_cache (self w)
             then match py_index new (- 2 * strokes_to_cache (self w)) with
                  | Some s => ret (CachingFrom s)
                  | None => raise IndexError
                  end
             else ret CachingTrue) w = Ok caching w) as [caching Hc].
  { destruct (Z.gtb_spec (Z.of_nat (length new)) (2 * strokes_to_cache (self w)));
      [|by eexists].
    unfold py_index.
    destruct (Z.ltb_spec (- 2 * strokes_to_cache (self w)) 0).
    - destruct (Z.ltb_spec (Z.of_nat (length new) + - 2 * strokes_to_cache (self w)) 0);
        [lia|].
      destruct (lookup_lt_is_Some_2 new
                  (Z.to_nat (Z.of_nat (length new) + - 2 * strokes_to_cache (self w))))
        as [s ->]; [lia|]. by eexists.
    - destruct (lookup_lt_is_Some_2 new (Z.to_nat (- 2 * strokes_to_cache (self w))))
        as [s ->]; [lia|]. by eexists. }
  rewrite (bind_run _ _ _ _ _ Hc).
  destruct (render_loop_total new caching w Hall) as [w' Hloop].
  rewrite (bind_run _ _ _ _ _ Hloop). unfold bind, get.
  apply render_loop_ok in Hloop as (_ & St & Hr & Hl & _); [|done].
  apply strokes_from_to_Some in Hnew as [_ Hnew]. cbn in Hnew. fold (rref w) in Hnew.
  exists w'.
  assert (list_of w' (s_strokes (rendered (self w'))) = list_of w' (strokes (self w')))
    as Hfinal.
  { fold (rref w'). rewrite Hr, Hl, <- Hnew.
    destruct St as (_ & Hs & _ & _ & _ & _ & Hframe & _). rewrite Hs.
    destruct (decide (strokes (self w) = rref w)) as [Heq|Hne].
    - rewrite Heq, Hl. rewrite Heq in Hnew.
      apply (f_equal length) in Hnew. rewrite length_app in Hnew.
      destruct new; [by rewrite app_nil_r|cbn in Hnew; lia].
    - unfold list_of. rewrite Hframe; [done| |done]. apply Hwf. }
  by rewrite bool_decide_eq_true_2.
Qed.

Lemma restart_wf w w1 :
  wf w -> steps w w1 -> rref w1 = next_ref w -> (next_ref w < next_ref w1)%nat ->
  caches (self w1) ≡ₚ caches (self w) -> wf w1.
Proof.
  intros (Hr & Hs & Hnd & Hall) (_ & Hs1 & _) Hr1 Hn1 Hperm.
  unfold wf. rewrite Hr1, Hs1, Hperm.
  split; [lia|]. split; [lia|]. split; [done|].
  eapply Forall_impl; [exact Hall|]. cbn. intros c ?. lia.
Qed.

Lemma count_finite w (r : Struct) :
  count_strokes_from w r < infinity ->
  exists new, strokes_from_to w r (layer_struct (self w)) = Some new.
Proof.
  unfold count_strokes_from. destruct (strokes_from_to _ _ _); [eauto|lia].
Qed.

Lemma suffix_renderable w (r : Struct) new :
  strokes_from_to w r (layer_struct (self w)) = Some new ->
  all_renderable w = true -> forallb (renderable w) new = true.
Proof.
  intros [_ H]%strokes_from_to_Some. cbn in H. unfold all_renderable.
  rewrite H, forallb_app. by intros [_ ?]%andb_true_iff.
Qed.

Lemma render_cached_total cache w new :
  wf w -> 0 <= strokes_to_cache (self w) -> cache ∈ caches (self w) ->
  strokes_from_to w (cache_struct cache) (layer_struct (self w)) = Some new ->
  forallb (renderable w) new = true ->
  exists w', render_cached cache w = Ok tt w'.
Proof.
  intros Hwf Hstc Hin Hnew Hall. unfold render_cached.
  destruct (list_remove_elem_of _ _ Hin) as [cs Hrm].
  destruct (list_remove_NoDup _ _ _ (proj1 (proj2 (proj2 Hwf))) Hin Hrm)
    as (l1 & l2 & Hcs & ->).
  unfold use_cache, bind, modify, get, new_list, alloc, ret; rewrite Hrm;
    cbn -[render_new_strokes].
  match goal with |- context [render_new_strokes ?x] => set (w1 := x) end.
  assert (St1 : steps w w1).
  { unfold steps, w1, rref, dict_of; cbn. repeat split; try done; try lia.
    intros r Hlt _. by rewrite lookup_insert_ne by lia. }
  apply strokes_from_to_Some in Hnew as [Hbg Hnew]. cbn in Hbg, Hnew.
  apply (render_new_strokes_total w1 new).
  - eapply restart_wf; [exact Hwf|exact St1|done|cbn; lia|]. cbn.
    rewrite Hcs, <- app_assoc. apply Permutation_app_head.
    by rewrite <- Permutation_cons_append.
  - done.
  - apply strokes_from_to_Some. split; [done|]. unfold list_of, w1; cbn.
    rewrite lookup_insert_eq, lookup_insert_ne; [done|].
    destruct Hwf as (_ & ? & _). lia.
  - by eapply forallb_renderable_steps.
Qed.

Lemma render_from_empty_total w :
  wf w -> 0 <= strokes_to_cache (self w) -> all_renderable w = true ->
  exists w', render_from_empty w = Ok tt w'.
Proof.
  intros Hwf Hstc Hall. unfold render_from_empty.
  unfold bind, modify, get, new_list, alloc, ret.
  destruct (background (self w)) as [bg|] eqn:Hbg; cbn -[render_new_strokes].
  all: match goal with |- context [render_new_strokes ?x] => set (w1 := x) end.
  all: assert (St1 : steps w w1);
    [unfold steps, w1, rref, dict_of; cbn; repeat split; try done; try lia;
     intros r Hlt _; by rewrite lookup_insert_ne by lia|].
  all: apply (render_new_strokes_total w1 (list_of w (strokes (self w))));
    [eapply restart_wf; [exact Hwf|exact St1|done|cbn; lia|done]
    |done
    |apply strokes_from_to_Some; split; [done|]; unfold list_of, w1; cbn;
     rewrite lookup_insert_eq, lookup_insert_ne; [done|];
     destruct Hwf as (_ & ? & _); lia
    |by eapply forallb_renderable_steps].
Qed.

(** [rerender(False)] completes on a layer whose strokes are finished. *)
Lemma rerender_completes addr w :
  wf w -> 0 <= strokes_to_cache (self w) -> all_renderable w = true ->
  Z.of_nat (length (list_of w (strokes (self w)))) + 3 < infinity ->
  exists cost w', rerender addr false w = Ok cost w'.
Proof.
  intros Hwf Hstc Hall Hlen.
  destruct (Z.le_gt_cases (count_strokes_from w (rendered (self w))) 1) as [Hc|Hc].
  - rewrite rerender_early by done.
    destruct (Z.gtb_spec (count_strokes_from w (rendered (self w))) 0) as [Hp|Hp];
      cbn [andb negb]; [|by eexists _, _].
    destruct (count_finite w (rendered (self w))) as [new Hnew].
    { unfold infinity. lia. }
    destruct (render_new_strokes_total w new) as [w' Hw']; try done.
    { by eapply suffix_renderable. }
    rewrite (bind_run _ _ _ _ _ Hw'). by eexists _, _.
  - destruct (rerender_select addr false w Hc) as (cost & render & Hmin & ->).
    assert (Hcost : cost < infinity).
    { destruct (options addr w) as [|b l] eqn:E; [discriminate|].
      injection Hmin as Hmin.
      assert ((empty_cost w, mkClosure (addr (S (length (caches (self w)))))
                               RenderFromEmpty) ∈ b :: l) as Hlast.
      { rewrite <- E. unfold options. apply list_elem_of_further, elem_of_app.
        right. apply list_elem_of_here. }
      pose proof (min_from_least l b _ Hlast) as [Hle _].
      rewrite Hmin in Hle. cbn in Hle. unfold empty_cost in Hle.
      destruct (background (self w)); lia. }
    assert (exists w', run (fn_code render) w = Ok tt w') as [w' Hw'].
    { apply py_min_elem_of, options_elem_of in Hmin
        as [[Hcnt Hf]|[(cache & Hin & Hcnt & Hf)|[Hcnt Hf]]]; cbn in Hcnt, Hf; rewrite Hf;
        cbn [run].
      - destruct (count_finite w (rendered (self w))) as [new Hnew]; [lia|].
        apply (render_new_strokes_total w new); try done.
        by eapply suffix_renderable.
      - destruct (count_finite w (cache_struct cache)) as [new Hnew]; [lia|].
        apply (render_cached_total cache w new); try done.
        by eapply suffix_renderable.
      - by apply render_from_empty_total. }
    rewrite (bind_run _ _ _ _ _ Hw'). by eexists _, _.
Qed.

End Completion.

(** ** What is rendered after rerender *)

Section RenderedStrokes.
Context {ops : SurfaceOps}.
Implicit Types (w : World ops).

(** *** Claim C1 *)

(** C1. After a completed [rerender(False)] the list
    [self.rendered.strokes] holds the strokes of [self.strokes]: the same
    objects, in the same order, as many. The call does not write to
    [self.strokes], so these are the strokes the caller asked for; and
    the call does complete when the strokes of the layer are finished
    strokes, fewer than [infinity]. *)
Theorem rerender_rendered_strokes addr w :
  (forall cost w', rerender addr false w = Ok cost w' ->
     list_of w' (s_strokes (rendered (self w'))) = list_of w' (strokes (self w')) /\
     (wf w -> strokes (self w) <> rref w ->
      strokes (self w') = strokes (self w) /\
      list_of w' (strokes (self w')) = list_of w (strokes (self w)))) /\
  (wf w -> 0 <= strokes_to_cache (self w) -> all_renderable w = true ->
   Z.of_nat (length (list_of w (strokes (self w)))) + 3 < infinity ->
   exists cost w', rerender addr false w = Ok cost w').
Proof.
  split; [|apply rerender_completes].
  intros cost w' H. split; [by eapply rerender_assert|].
  intros Hwf Hne.
  apply rerender_ok in H as (_ & (_ & Hs & _ & _ & _ & _ & Hl & _) & _); [|done].
  split; [done|]. rewrite Hs. unfold list_of. rewrite Hl; [done| |done].
  apply Hwf.
Qed.

End RenderedStrokes.

(** ** The life of a stroke *)

Section StrokeLife.
Context {ops : SurfaceOps}.
Implicit Types (w : World ops) (o s : nat) (name : string) (v : Value).

Lemma set_objs_insert_insert o (d1 d2 : gmap string Value) w :
  set_objs <[o := d2]> (set_objs <[o := d1]> w) = set_objs <[o := d2]> w.
Proof. unfold set_objs; cbn. by rewrite insert_insert_eq. Qed.

Lemma dict_of_set_objs_eq o (d : gmap string Value) w :
  dict_of (set_objs <[o := d]> w) o = d.
Proof. by rewrite dict_of_set_objs_insert, decide_True. Qed.

Lemma start_recording_ok s tdw brush bs st seed w u w' :
  start_recording s tdw brush bs st seed w = Ok u w' <->
  (exists f, dict_of w s !! "finished" = Some f /\ truthy f = false) /\
  w' = set_objs
         <[s := <["rendered" := VBool true]>
                  (<["brush" := VObj brush]>
                     (<["seed" := VInt seed]>
                        (<["brush_state" := st]>
                           (<["brush_settings" := bs]>
                              (<["tdw" := VObj tdw]> (dict_of w s))))))]> w.
Proof.
  unfold start_recording. split.
  - intros H.
    bind_inv H. apply getattr_ok in Hrun as [-> Hf].
    bind_inv H. apply py_assert_ok in Hrun as [Ht ->].
    apply negb_true_iff in Ht. split; [eauto|].
    do 5 (bind_inv H; rewrite setattr_run in Hrun; injection Hrun as _ <-;
          rewrite ?dict_of_set_objs_eq, ?set_objs_insert_insert in H).
    rewrite setattr_run in H.
    rewrite ?dict_of_set_objs_eq, ?set_objs_insert_insert in H.
    by injection H as _ <-.
  - intros [(f & Hf & Ht) ->].
    rewrite (bind_run _ _ _ _ _ (getattr_run _ _ _ _ Hf)).
    erewrite (bind_run _ _ _ tt); [|by apply py_assert_ok; rewrite Ht].
    do 5 (rewrite (bind_run _ _ _ _ _ (setattr_run _ _ _ _));
          rewrite ?dict_of_set_objs_eq, ?set_objs_insert_insert).
    rewrite setattr_run.
    rewrite ?dict_of_set_objs_eq, ?set_objs_insert_insert. by destruct u.
Qed.

Lemma delattr_run o name v w :
  dict_of w o !! name = Some v ->
  delattr o name w = Ok tt (set_objs <[o := delete name (dict_of w o)]> w).
Proof.
  intros H. unfold delattr. by rewrite (bind_run _ _ _ _ _ (getattr_run _ _ _ _ H)).
Qed.

Lemma stop_recording_ok s data x y b h time w u w' :
  stop_recording s data x y b h time w = Ok u w' <->
  (exists f, dict_of w s !! "finished" = Some f /\ truthy f = false) /\
  is_Some (dict_of w s !! "tdw") /\ is_Some (dict_of w s !! "brush") /\
  w' = set_objs
         <[s := <["finished" := VBool true]>
                  (delete "brush"
                     (delete "tdw"
                        (<["empty" := VBool ((b <=? 0) && (h <=? 0))]>
                           (<["total_painting_time" := time]>
                              (<["bbox" := VRect x y b h]>
                                 (<["stroke_data" := data]> (dict_of w s)))))))]> w.
Proof.
  unfold stop_recording. split.
  - intros H.
    bind_inv H. apply getattr_ok in Hrun as [-> Hf].
    bind_inv H. apply py_assert_ok in Hrun as [Ht ->].
    apply negb_true_iff in Ht.
    bind_inv H. apply getattr_ok in Hrun as [-> Htdw].
    bind_inv H. rewrite setattr_run in Hrun. injection Hrun as _ <-.
    bind_inv H. apply getattr_ok in Hrun as [-> Hbrush].
    rewrite dict_of_set_objs_eq, lookup_insert_ne in Hbrush by done.
    split; [eauto|]. split; [eauto|]. split; [eauto|].
    bind_inv H. rewrite setattr_run in Hrun. injection Hrun as _ <-.
    bind_inv H. apply getattr_ok in Hrun as [-> _].
    bind_inv H. rewrite setattr_run in Hrun. injection Hrun as _ <-.
    bind_inv H. rewrite setattr_run in Hrun. injection Hrun as _ <-.
    rewrite ?dict_of_set_objs_eq, ?set_objs_insert_insert in H.
    bind_inv H. erewrite delattr_run in Hrun; last first.
    { rewrite dict_of_set_objs_eq. rewrite !lookup_insert_ne by done. exact Htdw. }
    injection Hrun as _ <-.
    rewrite ?dict_of_set_objs_eq, ?set_objs_insert_insert in H.
    bind_inv H. erewrite delattr_run in Hrun; last first.
    { rewrite dict_of_set_objs_eq. rewrite lookup_delete_ne by done.
      rewrite !lookup_insert_ne by done. exact Hbrush. }
    injection Hrun as _ <-.
    rewrite setattr_run in H.
    rewrite ?dict_of_set_objs_eq, ?set_objs_insert_insert in H.
    by injection H as _ <-.
  - intros ((f & Hf & Ht) & [vt Htdw] & [vb Hbrush] & ->).
    rewrite (bind_run _ _ _ _ _ (getattr_run _ _ _ _ Hf)).
    erewrite (bind_run _ _ _ tt); [|by apply py_assert_ok; rewrite Ht].
    rewrite (bind_run _ _ _ _ _ (getattr_run _ _ _ _ Htdw)).
    rewrite (bind_run _ _ _ _ _ (setattr_run _ _ _ _)).
    erewrite (bind_run _ _ _ vb); last first.
    { apply getattr_run. rewrite dict_of_set_objs_eq. by rewrite lookup_insert_ne. }
    rewrite (bind_run _ _ _ _ _ (setattr_run _ _ _ _)).
    erewrite (bind_run _ _ _ vb); last first.
    { apply getattr_run. rewrite ?dict_of_set_objs_eq, ?set_objs_insert_insert.
      by rewrite !lookup_insert_ne. }
    rewrite (bind_run _ _ _ _ _ (setattr_run _ _ _ _)).
    rewrite (bind_run _ _ _ _ _ (setattr_run _ _ _ _)).
    rewrite ?dict_of_set_objs_eq, ?set_objs_insert_insert.
    erewrite (bind_run _ _ _ tt); last first.
    { eapply delattr_run. rewrite dict_of_set_objs_eq.
      rewrite !lookup_insert_ne by done. exact Htdw. }
    rewrite ?dict_of_set_objs_eq, ?set_objs_insert_insert.
    erewrite (bind_run _ _ _ tt); last first.
    { eapply delattr_run. rewrite dict_of_set_objs_eq.
      rewrite lookup_delete_ne by done. rewrite !lookup_insert_ne by done. exact Hbrush. }
    rewrite setattr_run.
    rewrite ?dict_of_set_objs_eq, ?set_objs_insert_insert. by destruct u.
Qed.

(** The attributes of a stroke when [record] returns. *)
Lemma record_ok tdw brush bs st seed data x y b h time w :
  exists w',
    record tdw brush bs st seed data x y b h time w = Ok (next_ref w) w' /\
    dict_of w' (next_ref w)
    = <["finished" := VBool true]>
        (delete "brush"
           (delete "tdw"
              (<["empty" := VBool ((b <=? 0) && (h <=? 0))]>
                 (<["total_painting_time" := time]>
                    (<["bbox" := VRect x y b h]>
                       (<["stroke_data" := data]>
                          (<["rendered" := VBool true]>
                             (<["brush" := VObj brush]>
                                (<["seed" := VInt seed]>
                                   (<["brush_state" := st]>
                                      (<["brush_settings" := bs]>
                                         (<["tdw" := VObj tdw]>
                                            (<["serial_number" := VInt (serial_number w + 1)]>
                                               (<["rendered" := VBool false]>
                                                  (<["finished" := VBool false]> ∅))))))))))))))) /\
    (forall o, o <> next_ref w -> dict_of w' o = dict_of w o) /\
    serial_number w' = serial_number w + 1 /\
    next_ref w' = S (next_ref w) /\
    lists w' = lists w /\ self w' = self w.
Proof.
  unfold record. rewrite (bind_run _ _ _ _ _ (Stroke_init_run w)).
  set (w1 := mkWorld _ _ _ _ _).
  assert (Hd1 : dict_of w1 (next_ref w)
                = <["serial_number" := VInt (serial_number w + 1)]>
                    (<["rendered" := VBool false]> (<["finished" := VBool false]> ∅))).
  { unfold dict_of, w1; cbn. by rewrite lookup_insert_eq. }
  erewrite (bind_run _ _ _ tt); last first.
  { apply start_recording_ok. split; [|reflexivity].
    exists (VBool false). by rewrite Hd1. }
  rewrite Hd1.
  erewrite (bind_run _ _ _ tt); last first.
  { apply stop_recording_ok. rewrite dict_of_set_objs_eq.
    split; [by exists (VBool false)|]. split; [by eexists|]. split; [by eexists|].
    reflexivity. }
  rewrite ?dict_of_set_objs_eq, ?set_objs_insert_insert.
  eexists. split; [reflexivity|]. split; [by rewrite dict_of_set_objs_eq|].
  split; [|done].
  intros o Ho. rewrite dict_of_set_objs_insert, decide_False by done.
  unfold dict_of, w1; cbn. by rewrite lookup_insert_ne.
Qed.

(** X1. A stroke that was recorded from start to stop is finished and
    can be rendered; it no longer refers to the widget and the brush it
    was recorded with; it counts as rendered, so its brush settings cannot
    be changed; and its [empty] flag says that the bounding box has
    neither width nor height. *)
Theorem recorded_stroke tdw brush bs st seed data x y b h time w :
  exists w',
    record tdw brush bs st seed data x y b h time w = Ok (next_ref w) w' /\
    renderable w' (next_ref w) = true /\
    dict_of w' (next_ref w) !! "finished" = Some (VBool true) /\
    dict_of w' (next_ref w) !! "rendered" = Some (VBool true) /\
    dict_of w' (next_ref w) !! "tdw" = None /\
    dict_of w' (next_ref w) !! "brush" = None /\
    dict_of w' (next_ref w) !! "empty" = Some (VBool ((b <=? 0) && (h <=? 0))) /\
    dict_of w' (next_ref w) !! "serial_number" = Some (VInt (serial_number w + 1)) /\
    (forall v, change_brush_settings (next_ref w) v w' = Raise AssertionError) /\
    (forall o, o <> next_ref w -> dict_of w' o = dict_of w o) /\
    lists w' = lists w /\ self w' = self w.
Proof.
  destruct (record_ok tdw brush bs st seed data x y b h time w)
    as (w' & Hrun & Hd & Ho & _ & _ & Hl & Hs).
  exists w'. split; [done|].
  assert (Hfin : dict_of w' (next_ref w) !! "finished" = Some (VBool true)).
  { rewrite Hd. reflexivity. }
  assert (Hren : dict_of w' (next_ref w) !! "rendered" = Some (VBool true)).
  { rewrite Hd. reflexivity. }
  split.
  { unfold renderable. rewrite Hd. reflexivity. }
  split; [done|]. split; [done|].
  split; [rewrite Hd; reflexivity|]. split; [rewrite Hd; reflexivity|].
  split; [rewrite Hd; reflexivity|]. split; [rewrite Hd; reflexivity|].
  split; [|done].
  intros v. unfold change_brush_settings.
  rewrite (bind_run _ _ _ _ _ (getattr_run _ _ _ _ Hfin)).
  erewrite (bind_run _ _ _ tt) by reflexivity.
  by rewrite (bind_run _ _ _ _ _ (getattr_run _ _ _ _ Hren)).
Qed.

(** X2. Recording does not start or stop on a finished stroke: both
    methods fail their assertion; and [stop_recording] on a stroke whose
    recording was never started raises [AttributeError], as the stroke has
    no [tdw]. *)
Theorem recording_needs_unfinished s w f :
  dict_of w s !! "finished" = Some f ->
  (truthy f = true ->
   (forall tdw brush bs st seed,
      start_recording s tdw brush bs st seed w = Raise AssertionError) /\
   (forall data x y b h time,
      stop_recording s data x y b h time w = Raise AssertionError)) /\
  (truthy f = false -> dict_of w s !! "tdw" = None ->
   forall data x y b h time,
     stop_recording s data x y b h time w = Raise AttributeError).
Proof.
  intros Hf. split.
  - intros Ht. split; intros; unfold start_recording, stop_recording;
      rewrite (bind_run _ _ _ _ _ (getattr_run _ _ _ _ Hf)); by rewrite Ht.
  - intros Ht Htdw data x y b h time. unfold stop_recording.
    rewrite (bind_run _ _ _ _ _ (getattr_run _ _ _ _ Hf)).
    erewrite (bind_run _ _ _ tt); [|by apply py_assert_ok; rewrite Ht].
    by rewrite (bind_raise _ _ _ _ (getattr_raise _ _ _ Htdw)).
Qed.

(** X3. [render] succeeds exactly on the strokes that are finished and
    have a bounding box, brush settings, a brush state, a seed and stroke
    data; on an unfinished stroke it fails its assertion. When it
    succeeds it sets the [rendered] flag of the stroke and nothing else in
    the store, and the surface is the replay on the former surface of what
    the stroke holds. *)
Theorem Stroke_render_spec s w :
  ((exists w', Stroke_render s w = Ok tt w') <-> renderable w s = true) /\
  (forall f, dict_of w s !! "finished" = Some f -> truthy f = false ->
     Stroke_render s w = Raise AssertionError) /\
  (forall w', Stroke_render s w = Ok tt w' ->
     dict_of w' s = <["rendered" := VBool true]> (dict_of w s) /\
     (forall o, o <> s -> dict_of w' o = dict_of w o) /\
     lists w' = lists w /\ next_ref w' = next_ref w /\
     serial_number w' = serial_number w /\
     exists bs st seed data,
       dict_of w s !! "brush_settings" = Some bs /\
       dict_of w s !! "brush_state" = Some st /\
       dict_of w s !! "seed" = Some seed /\
       dict_of w s !! "stroke_data" = Some data /\
       self w' = set_surface (surface_replay bs st seed data) (self w)).
Proof.
  split; [|split].
  - split.
    + intros [w' H]. unfold Stroke_render in H. unfold renderable.
      bind_inv H. apply getattr_ok in Hrun as [-> ->].
      bind_inv H. apply py_assert_ok in Hrun as [-> ->].
      bind_inv H. apply getattr_ok in Hrun as [-> ->].
      destruct a1; try discriminate.
      bind_inv H. apply getattr_ok in Hrun as [-> ->].
      bind_inv H. apply getattr_ok in Hrun as [-> ->].
      bind_inv H. apply getattr_ok in Hrun as [-> ->].
      bind_inv H. apply getattr_ok in Hrun as [-> ->].
      cbn. rewrite ?bool_decide_eq_true_2 by done. done.
    + apply Stroke_render_total.
  - intros f Hf Ht. unfold Stroke_render.
    rewrite (bind_run _ _ _ _ _ (getattr_run _ _ _ _ Hf)). by rewrite Ht.
  - intros w' H. by apply Stroke_render_ok in H as (_ & ? & ? & ? & ? & ? & ?).
Qed.

(** X4. [copy] fails its assertion on a stroke that is not finished; when
    it succeeds it has written to the new stroke only: the original keeps
    its attributes, and the lists and the layer are as they were. *)
Theorem Stroke_copy_spec this w :
  (forall f, dict_of w this !! "finished" = Some f -> truthy f = false ->
     Stroke_copy this w = Raise AssertionError) /\
  (forall s w', Stroke_copy this w = Ok s w' ->
     s = next_ref w /\ next_ref w' = S (next_ref w) /\
     (forall o, o <> s -> dict_of w' o = dict_of w o) /\
     lists w' = lists w /\ self w' = self w).
Proof.
  split.
  - intros f Hf Ht. unfold Stroke_copy.
    rewrite (bind_run _ _ _ _ _ (getattr_run _ _ _ _ Hf)). by rewrite Ht.
  - intros s w' H.
    by apply Stroke_copy_ok in H as (_ & ? & _ & ? & ? & ? & ? & _).
Qed.

(** X5. A copy that is given other brush settings and then rendered
    replays the data of the original, with its brush state and seed, under
    the new settings; the original is not touched. *)
Theorem copy_with_other_settings this v w :
  (this < next_ref w)%nat -> renderable w this = true ->
  exists w' st seed data,
    (s <- Stroke_copy this ;; change_brush_settings s v ;; Stroke_render s ;; ret s) w
    = Ok (next_ref w) w' /\
    dict_of w this !! "brush_state" = Some st /\
    dict_of w this !! "seed" = Some seed /\
    dict_of w this !! "stroke_data" = Some data /\
    surface (self w') = surface_replay v st seed data (surface (self w)) /\
    dict_of w' this = dict_of w this /\
    dict_of w' (next_ref w) !! "brush_settings" = Some v /\
    dict_of w' (next_ref w) !! "rendered" = Some (VBool true).
Proof.
  intros Hlt Hren. assert (Hne : this <> next_ref w) by lia.
  pose proof Hren as Hren'. unfold renderable in Hren'.
  destruct (dict_of w this !! "finished") as [f|] eqn:Hf; [|done].
  destruct (dict_of w this !! "bbox") as [[| | | | |x y b h]|] eqn:Hb; try done.
  repeat (apply andb_true_iff in Hren' as [Hren' ?]).
  repeat match goal with
         | H : bool_decide (is_Some _) = true |- _ =>
             apply bool_decide_eq_true in H as [? H]
         end.
  destruct (Stroke_copy this w) as [s w1|e] eqn:Hcopy; last first.
  { unfold Stroke_copy in Hcopy.
    rewrite (bind_run _ _ _ _ _ (getattr_run _ _ _ _ Hf)) in Hcopy.
    erewrite (bind_run _ _ _ tt) in Hcopy by (by apply py_assert_ok).
    rewrite (bind_run _ _ _ _ _ (Stroke_init_run w)) in Hcopy. discriminate. }
  pose proof Hcopy as Hcopy'.
  apply Stroke_copy_ok in Hcopy' as (_ & -> & _ & _ & _ & Hself & Hother & Hs).
  specialize (Hs Hne).
  assert (Hattr : forall name a, name <> "rendered" ->
            dict_of w this !! name = Some a ->
            dict_of w1 (next_ref w) !! name = Some a).
  { intros name a Hname Ha. rewrite Hs, lookup_insert_ne by done.
    apply lookup_union_Some_raw. by left. }
  rewrite (bind_run _ _ _ _ _ Hcopy).
  set (w2 := set_objs <[next_ref w := <["brush_settings" := v]> (dict_of w1 (next_ref w))]> w1).
  assert (Hchange : change_brush_settings (next_ref w) v w1 = Ok tt w2).
  { apply change_brush_settings_ok. split; [|done].
    exists f, (VBool false). split; [by apply Hattr|]. split; [done|].
    split; [|done]. rewrite Hs. by rewrite lookup_insert_eq. }
  rewrite (bind_run _ _ _ _ _ Hchange).
  assert (Hd2 : dict_of w2 (next_ref w)
                = <["brush_settings" := v]> (dict_of w1 (next_ref w))).
  { unfold w2. by rewrite dict_of_set_objs_eq. }
  assert (Hren2 : renderable w2 (next_ref w) = true).
  { unfold renderable. rewrite Hd2.
    rewrite lookup_insert_eq, !lookup_insert_ne by done.
    rewrite (Hattr "finished" f), (Hattr "bbox" (VRect x y b h)) by done.
    erewrite (Hattr "brush_state"), (Hattr "seed"), (Hattr "stroke_data") by done.
    rewrite Hren'. cbn. rewrite ?bool_decide_eq_true_2 by done. done. }
  destruct (Stroke_render_total _ _ Hren2) as [w3 Hrender].
  rewrite (bind_run _ _ _ _ _ Hrender).
  apply Stroke_render_ok in Hrender
    as (_ & Hd3 & Ho3 & _ & _ & _ & bs' & st' & seed' & data' & Hbs & Hst & Hseed & Hdata & Hself3).
  rewrite Hd2 in Hbs, Hst, Hseed, Hdata.
  rewrite lookup_insert_eq in Hbs. rewrite lookup_insert_ne in Hst, Hseed, Hdata by done.
  erewrite Hattr in Hst, Hseed, Hdata by done.
  injection Hbs as <-. injection Hst as <-. injection Hseed as <-. injection Hdata as <-.
  eexists w3, _, _, _. split; [done|]. do 3 (split; [done|]).
  split; [by rewrite Hself3; unfold w2; cbn; rewrite Hself|].
  split.
  { rewrite Ho3 by done. unfold w2.
    rewrite dict_of_set_objs_insert, decide_False by done. by apply Hother. }
  rewrite Hd3, Hd2. split.
  - by rewrite lookup_insert_ne, lookup_insert_eq.
  - by rewrite lookup_insert_eq.
Qed.

(** X6. The serial numbers that [Stroke()] gives are new: when no stroke
    is numbered above the class counter, the stroke that [Stroke()] makes
    has a number above that of every other stroke, and again no stroke is
    numbered above the counter; [copy] keeps the latter too. *)
Theorem Stroke_init_serial_number w :
  serials_bounded w ->
  (forall s w', Stroke_init w = Ok s w' ->
     serials_bounded w' /\
     dict_of w' s !! "serial_number" = Some (VInt (serial_number w')) /\
     forall o n, o <> s -> dict_of w' o !! "serial_number" = Some (VInt n) ->
                 n < serial_number w') /\
  (forall this s w', (this < next_ref w)%nat -> Stroke_copy this w = Ok s w' ->
     serials_bounded w').
Proof.
  intros Hb. split.
  - intros s w' H. rewrite Stroke_init_run in H. injection H as <- <-.
    assert (Hs : dict_of (mkWorld
                   (<[next_ref w :=
                        <["serial_number" := VInt (serial_number w + 1)]>
                          (<["rendered" := VBool false]> (<["finished" := VBool false]> ∅))]>
                      (objs w))
                   (lists w) (S (next_ref w)) (serial_number w + 1) (self w)) (next_ref w)
                 !! "serial_number" = Some (VInt (serial_number w + 1))).
    { unfold dict_of; cbn. by rewrite lookup_insert_eq. }
    assert (Ho : forall o n, o <> next_ref w ->
              dict_of (mkWorld
                   (<[next_ref w :=
                        <["serial_number" := VInt (serial_number w + 1)]>
                          (<["rendered" := VBool false]> (<["finished" := VBool false]> ∅))]>
                      (objs w))
                   (lists w) (S (next_ref w)) (serial_number w + 1) (self w)) o
                !! "serial_number" = Some (VInt n) -> n <= serial_number w).
    { intros o n Hne. unfold dict_of; cbn. rewrite lookup_insert_ne by done. apply Hb. }
    split; [|split].
    + intros o n Hn. cbn. destruct (decide (o = next_ref w)) as [->|Hne].
      * rewrite Hs in Hn. injection Hn as <-. lia.
      * apply Ho in Hn; [lia|done].
    + done.
    + intros o n Hne Hn. cbn. apply Ho in Hn; [lia|done].
  - intros this s w' Hlt H.
    apply Stroke_copy_ok in H as (_ & -> & Hser & _ & _ & _ & Hother & Hs).
    assert (Hne : this <> next_ref w) by lia. specialize (Hs Hne).
    intros o n Hn. rewrite Hser. destruct (decide (o = next_ref w)) as [->|Hno].
    + rewrite Hs, lookup_insert_ne in Hn by done.
      apply lookup_union_Some_raw in Hn as [Hn|[_ Hn]].
      * apply Hb in Hn. lia.
      * rewrite lookup_insert_eq in Hn. injection Hn as <-. lia.
    + rewrite Hother in Hn by done. apply Hb in Hn. lia.
Qed.

End StrokeLife.


(** ** More about strokes_from_to and the costs *)

Section Costs.
Context {ops : SurfaceOps}.
Implicit Types (w : World ops) (a b c : Struct).

(** X7. [strokes_from_to] composes: from a point to itself there is
    nothing to replay; the strokes from [a] to [b] followed by those from
    [b] to [c] are the strokes from [a] to [c]; and two points that can
    each be reached from the other hold the same strokes. *)
Theorem strokes_from_to_compose w a b c :
  strokes_from_to w a a = Some [] /\
  (forall n1 n2, strokes_from_to w a b = Some n1 -> strokes_from_to w b c = Some n2 ->
     strokes_from_to w a c = Some (n1 ++ n2)) /\
  (forall n1 n2, strokes_from_to w a b = Some n1 -> strokes_from_to w b a = Some n2 ->
     n1 = [] /\ n2 = [] /\ list_of w (s_strokes a) = list_of w (s_strokes b)).
Proof.
  split; [|split].
  - apply strokes_from_to_Some. by rewrite app_nil_r.
  - intros n1 n2 [Hbg1 H1]%strokes_from_to_Some [Hbg2 H2]%strokes_from_to_Some.
    apply strokes_from_to_Some. split; [congruence|].
    by rewrite H2, H1, app_assoc.
  - intros n1 n2 [_ H1]%strokes_from_to_Some [_ H2]%strokes_from_to_Some.
    assert (length n1 = 0%nat /\ length n2 = 0%nat) as [Hn1 Hn2].
    { apply (f_equal length) in H1, H2. rewrite length_app in H1, H2. lia. }
    destruct n1, n2; try discriminate. by rewrite app_nil_r in H1.
Qed.

(** X8. The cost that [rerender] returns is never negative, never above
    the cost of continuing from what is rendered, and never above the
    cost of the full rerender: the number of strokes, and 3 more when
    there is a background. *)
Theorem rerender_cost_bounds addr est w cost w' :
  rerender addr est w = Ok cost w' ->
  0 <= cost /\
  cost <= count_strokes_from w (rendered (self w)) /\
  (count_strokes_from w (rendered (self w)) < infinity -> cost <= empty_cost w) /\
  (1 < count_strokes_from w (rendered (self w)) -> cost <= empty_cost w) /\
  empty_cost w <= Z.of_nat (length (list_of w (strokes (self w)))) + 3.
Proof.
  intros H.
  assert (Hempty : empty_cost w <= Z.of_nat (length (list_of w (strokes (self w)))) + 3).
  { unfold empty_cost. destruct (background (self w)); lia. }
  assert (Hempty' : Z.of_nat (length (list_of w (strokes (self w)))) <= empty_cost w).
  { unfold empty_cost. destruct (background (self w)); lia. }
  destruct (Z.le_gt_cases (count_strokes_from w (rendered (self w))) 1) as [Hc|Hc].
  - rewrite rerender_early in H by done.
    bind_inv H. injection H as <- _.
    pose proof (count_strokes_from_nonneg w (rendered (self w))).
    split; [done|]. split; [lia|]. split; [|split; [lia|done]].
    intros Hfin. apply count_strokes_from_le in Hfin. lia.
  - destruct (rerender_select addr est w Hc) as (c & render & Hmin & Hre).
    rewrite Hre in H.
    assert (cost = c) as ->.
    { destruct est; [by injection H as <- _|]. bind_inv H. by injection H as <- _. }
    destruct (options addr w) as [|b l] eqn:E; [discriminate|].
    injection Hmin as Hmin.
    assert (Hle : forall o, o ∈ options addr w -> c <= o.1).
    { intros o Ho. rewrite E in Ho.
      pose proof (min_from_least l b o Ho) as [Hle _]. by rewrite Hmin in Hle. }
    assert (Hin : (c, render) ∈ options addr w).
    { rewrite E, <- Hmin. apply min_from_elem_of. }
    assert (Hlast : c <= empty_cost w).
    { apply (Hle (empty_cost w, mkClosure (addr (S (length (caches (self w)))))
                                  RenderFromEmpty)).
      unfold options. apply list_elem_of_further, elem_of_app. right.
      apply list_elem_of_here. }
    assert (Hfirst : c <= count_strokes_from w (rendered (self w))).
    { apply (Hle (count_strokes_from w (rendered (self w)),
                  mkClosure (addr 0%nat) RenderNewStrokes)).
      unfold options. apply list_elem_of_here. }
    split; [|done].
    apply options_elem_of in Hin as [[Hcnt _]|[(cache & _ & Hcnt & _)|[Hcnt _]]];
      cbn in Hcnt; rewrite Hcnt.
    + apply count_strokes_from_nonneg.
    + pose proof (count_strokes_from_nonneg w (cache_struct cache)). lia.
    + lia.
Qed.

(** X9. A point from which the strokes of the layer cannot be reached
    is never what [rerender] goes on from: with fewer than [infinity]
    strokes, the option it runs costs less than [infinity]; it is
    [render_new_strokes] only if what is rendered leads to the strokes,
    and [render_cached] only for a cache of the list that leads to them. *)
Theorem rerender_never_selects_infinity addr w :
  1 < count_strokes_from w (rendered (self w)) ->
  Z.of_nat (length (list_of w (strokes (self w)))) + 3 < infinity ->
  exists cost render,
    py_min (options addr w) = Some (cost, render) /\
    rerender addr false w = (run (fn_code render) ;; ret cost) w /\
    cost < infinity /\
    match fn_code render with
    | RenderNewStrokes =>
        is_Some (strokes_from_to w (rendered (self w)) (layer_struct (self w)))
    | RenderCached cache =>
        cache ∈ caches (self w) /\
        is_Some (strokes_from_to w (cache_struct cache) (layer_struct (self w)))
    | RenderFromEmpty => True
    end.
Proof.
  intros Hc Hlen.
  destruct (rerender_select addr false w Hc) as (cost & render & Hmin & Hre).
  exists cost, render. split; [done|]. split; [done|].
  assert (Hcost : cost < infinity).
  { destruct (options addr w) as [|b l] eqn:E; [discriminate|].
    injection Hmin as Hmin.
    assert ((empty_cost w, mkClosure (addr (S (length (caches (self w)))))
                             RenderFromEmpty) ∈ b :: l) as Hlast.
    { rewrite <- E. unfold options. apply list_elem_of_further, elem_of_app.
      right. apply list_elem_of_here. }
    pose proof (min_from_least l b _ Hlast) as [Hle _].
    rewrite Hmin in Hle. cbn in Hle. unfold empty_cost in Hle.
    destruct (background (self w)); lia. }
  split; [done|].
  apply py_min_elem_of, options_elem_of in Hmin
    as [[Hcnt Hf]|[(cache & Hin & Hcnt & Hf)|[Hcnt Hf]]]; cbn in Hcnt, Hf; rewrite Hf.
  - destruct (count_finite w (rendered (self w))) as [new ->]; [lia|done].
  - split; [done|].
    destruct (count_finite w (cache_struct cache)) as [new ->]; [lia|done].
  - done.
Qed.

End Costs.


(** ** A new layer, and a layer that is in sync *)

Section InSync.
Context {ops : SurfaceOps}.
Implicit Types (w : World ops).

Lemma render_loop_layer new : forall caching w u w',
  render_loop caching new w = Ok u w' ->
  background (self w') = background (self w) /\
  s_background (rendered (self w')) = s_background (rendered (self w)).
Proof.
  induction new as [|s new IH]; intros caching w u w' H.
  - by injection H as _ <-.
  - cbn [render_loop] in H.
    apply bind_ok in H as (? & w1 & Hrun & H).
    apply Stroke_render_ok in Hrun
      as (_ & _ & _ & _ & _ & _ & bs & st & seed & data & _ & _ & _ & _ & Hself).
    apply bind_ok in H as (? & ? & [= <- <-] & H).
    apply bind_ok in H as (? & w2 & Hrun & H).
    rewrite list_append_run in Hrun. injection Hrun as _ <-.
    apply bind_ok in H as (? & w3 & Hrun & H).
    assert (self w3 = set_caches (caches (self w3)) (self w1)) as Hself3.
    { destruct (caching_step caching s).
      - destruct (populate_cache_cases
                    (set_lists <[s_strokes (rendered (self w1)) :=
                                   list_of w1 (s_strokes (rendered (self w1))) ++ [s]]> w1))
          as [Hp|(_ & _ & Hp)]; rewrite Hp in Hrun; injection Hrun as _ <-; cbn;
          by destruct (self w1).
      - injection Hrun as _ <-. cbn. by destruct (self w1). }
    apply IH in H as [H1 H2]. rewrite H1, H2, Hself3, Hself. done.
Qed.

Lemma render_new_strokes_background w u w' :
  render_new_strokes w = Ok u w' ->
  s_background (rendered (self w')) = background (self w').
Proof.
  unfold render_new_strokes. intros H.
  bind_inv H. injection Hrun as <- <-.
  destruct (strokes_from_to w _ _) as [new|] eqn:E; [|discriminate].
  apply strokes_from_to_Some in E as [Hbg _]. cbn in Hbg.
  bind_inv H.
  assert (w0 = w) as ->.
  { destruct (_ >? _); [destruct (py_index _ _)|]; by inversion Hrun. }
  bind_inv H. apply render_loop_layer in Hrun0 as [H1 H2].
  bind_inv H. injection Hrun0 as <- <-.
  apply py_assert_ok in H as [_ ->]. congruence.
Qed.

Lemma rerender_in_sync addr w cost w' :
  rerender addr false w = Ok cost w' ->
  strokes_from_to w' (rendered (self w')) (layer_struct (self w')) = Some [].
Proof.
  intros H. apply strokes_from_to_Some. rewrite app_nil_r.
  split; [|cbn; symmetry; by eapply rerender_assert].
  cbn.
  destruct (Z.le_gt_cases (count_strokes_from w (rendered (self w))) 1) as [Hc|Hc].
  - rewrite rerender_early in H by done.
    bind_inv H. injection H as _ <-.
    destruct (Z.gtb_spec (count_strokes_from w (rendered (self w))) 0) as [Hp|Hp];
      cbn [andb negb] in Hrun.
    + by eapply render_new_strokes_background.
    + injection Hrun as _ <-.
      destruct (count_finite w (rendered (self w))) as [new Hnew].
      { unfold infinity. lia. }
      by apply strokes_from_to_Some in Hnew as [? _].
  - destruct (rerender_select addr false w Hc) as (c & render & _ & Hre).
    rewrite Hre in H. bind_inv H. injection H as _ <-.
    destruct (fn_code render) as [|cache|]; cbn [run] in Hrun.
    + by eapply render_new_strokes_background.
    + unfold render_cached in Hrun. do 6 bind_inv Hrun.
      by eapply render_new_strokes_background.
    + unfold render_from_empty in Hrun. do 5 bind_inv Hrun.
      by eapply render_new_strokes_background.
Qed.

(** X10. [rerender] is idempotent: after a completed [rerender(False)]
    what is rendered is the strokes and the background of the layer, and
    any further [rerender], estimating or not, returns the cost 0 and
    changes nothing, until the caller changes the layer. *)
Theorem rerender_idempotent addr w cost w' :
  rerender addr false w = Ok cost w' ->
  s_background (rendered (self w')) = background (self w') /\
  count_strokes_from w' (rendered (self w')) = 0 /\
  forall addr' est, rerender addr' est w' = Ok 0 w'.
Proof.
  intros H. pose proof (rerender_in_sync _ _ _ _ H) as Hsync.
  assert (Hcount : count_strokes_from w' (rendered (self w')) = 0).
  { unfold count_strokes_from. by rewrite Hsync. }
  split; [by apply strokes_from_to_Some in Hsync as [? _]|]. split; [done|].
  intros addr' est. rewrite rerender_early by lia. by rewrite Hcount.
Qed.

(** X11. [Layer(surface)] with a surface fails its assertion. [Layer()]
    makes a layer with two new, distinct, empty lists for its strokes and
    for what is rendered, no background, no cache and the threshold 6; the
    layer is in sync, and [rerender] on it returns 0 and changes
    nothing. *)
Theorem Layer_init_spec w :
  (forall sf, Layer_init (Some sf) w = Raise AssertionError) /\
  exists w',
    Layer_init None w = Ok tt w' /\
    strokes (self w') = next_ref w /\ rref w' = S (next_ref w) /\
    list_of w' (strokes (self w')) = [] /\ list_of w' (rref w') = [] /\
    background (self w') = None /\ s_background (rendered (self w')) = None /\
    caches (self w') = [] /\ strokes_to_cache (self w') = 6 /\
    surface (self w') = surface_new /\
    objs w' = objs w /\
    wf w' /\
    forall addr est, rerender addr est w' = Ok 0 w'.
Proof.
  split; [done|].
  set (w' := mkWorld (objs w)
               (<[S (next_ref w) := []]> (<[next_ref w := []]> (lists w)))
               (S (S (next_ref w))) (serial_number w)
               (mkLayer surface_new (next_ref w) None (mkStruct (S (next_ref w)) None) [] 6)).
  exists w'. split; [reflexivity|].
  assert (Hl1 : list_of w' (next_ref w) = []).
  { unfold list_of, w'; cbn. by rewrite lookup_insert_ne, lookup_insert_eq by lia. }
  assert (Hl2 : list_of w' (S (next_ref w)) = []).
  { unfold list_of, w'; cbn. by rewrite lookup_insert_eq. }
  do 2 (split; [done|]). split; [done|]. split; [done|].
  do 6 (split; [done|]).
  split.
  { unfold wf, rref, w'; cbn. split; [lia|]. split; [lia|]. split; constructor. }
  assert (Hcount : count_strokes_from w' (rendered (self w')) = 0).
  { unfold count_strokes_from.
    assert (strokes_from_to w' (rendered (self w')) (layer_struct (self w')) = Some [])
      as ->; [|done].
    apply strokes_from_to_Some. cbn. by rewrite Hl1, Hl2. }
  intros addr est. rewrite rerender_early by lia. by rewrite Hcount.
Qed.

(** X12. A stroke that is not finished stops [rerender]: when the only
    stroke to replay is unfinished, as a stroke still being recorded is,
    [rerender(False)] fails the assertion of [render], while
    [rerender(True)] returns the cost 1. *)
Theorem rerender_unfinished_stroke addr w s f :
  0 <= strokes_to_cache (self w) ->
  strokes_from_to w (rendered (self w)) (layer_struct (self w)) = Some [s] ->
  dict_of w s !! "finished" = Some f -> truthy f = false ->
  rerender addr false w = Raise AssertionError /\
  rerender addr true w = Ok 1 w.
Proof.
  intros Hstc Hnew Hf Ht.
  assert (Hc : count_strokes_from w (rendered (self w)) = 1).
  { unfold count_strokes_from. by rewrite Hnew. }
  rewrite !rerender_early by lia. rewrite Hc. split; [|done].
  cbn [Z.gtb Z.compare andb negb].
  apply bind_raise. unfold render_new_strokes.
  unfold bind at 1, get. rewrite Hnew.
  assert (exists caching,
            (if Z.of_nat (length [s]) >? 2 * strokes_to_cache (self w)
             then match py_index [s] (- 2 * strokes_to_cache (self w)) with
                  | Some s => ret (CachingFrom s)
                  | None => raise IndexError
                  end
             else ret CachingTrue) w = Ok caching w) as [caching Hcaching].
  { destruct (Z.gtb_spec (Z.of_nat (length [s])) (2 * strokes_to_cache (self w)))
      as [Hgt|]; [|by eexists].
    cbn in Hgt. assert (strokes_to_cache (self w) = 0) as -> by lia.
    by eexists. }
  rewrite (bind_run _ _ _ _ _ Hcaching).
  apply bind_raise. cbn [render_loop]. apply bind_raise.
  unfold Stroke_render.
  rewrite (bind_run _ _ _ _ _ (getattr_run _ _ _ _ Hf)). by rewrite Ht.
Qed.

(** X13. [rerender] works on the surface, on what is rendered and on the
    caches only: it does not assign [self.strokes], [self.background] or
    [self.strokes_to_cache], it makes no stroke and gives no serial number,
    and of the attributes of the strokes it writes the [rendered] flag
    alone, so that a stroke is replayed the same way ever after. *)
Theorem rerender_frame addr est w cost w' :
  wf w -> rerender addr est w = Ok cost w' ->
  strokes (self w') = strokes (self w) /\
  background (self w') = background (self w) /\
  strokes_to_cache (self w') = strokes_to_cache (self w) /\
  serial_number w' = serial_number w /\
  (forall o name, name <> "rendered" -> dict_of w' o !! name = dict_of w o !! name) /\
  (forall s, renderable w s = true -> renderable w' s = true) /\
  (next_ref w <= next_ref w')%nat.
Proof.
  intros Hwf H. apply rerender_ok in H as (_ & St & _); [|done].
  pose proof St as (Hn & Hs & Hb & Hc & Hser & _ & _ & Ho).
  do 5 (split; [done|]). split; [|done].
  intros s. by apply renderable_steps.
Qed.

End InSync.


(** ** Invariants of rerender *)

Section Invariants.
Context {ops : SurfaceOps}.
Implicit Types (w : World ops) (c cache : Cache ops) (cs : list (Cache ops)).

Lemma render_cached_run cache cs w :
  list_remove cache (caches (self w)) = Some cs ->
  render_cached cache w = render_new_strokes (cached_world cache (cs ++ [cache]) w).
Proof.
  intros Hrm. unfold render_cached, use_cache.
  unfold bind, modify, get, new_list, alloc, ret. by rewrite Hrm.
Qed.

Lemma render_from_empty_run w :
  render_from_empty w = render_new_strokes (emptied_world w).
Proof.
  unfold render_from_empty, emptied_world.
  unfold bind, modify, get, new_list, alloc, ret.
  destruct (background (self w)) eqn:E; cbn -[render_new_strokes]; f_equal;
    unfold set_self, set_rendered, set_lists, set_next_ref, set_surface; cbn;
    by rewrite E.
Qed.

Lemma appended_world_wf s w u w0 :
  wf w -> Stroke_render s w = Ok u w0 -> wf (appended_world s w0).
Proof.
  intros (Hw1 & Hw2 & Hw3 & Hw4) H.
  apply Stroke_render_steps in H as (_ & Hr & _ & Hn & Hc & Hs).
  unfold wf, appended_world, rref in *; cbn. rewrite Hr, Hn, Hc, Hs. done.
Qed.

Lemma cached_world_steps cache cs w : steps w (cached_world cache cs w).
Proof.
  unfold steps, cached_world, rref, dict_of; cbn. repeat split; try done; try lia.
  intros r Hlt _. by rewrite lookup_insert_ne by lia.
Qed.

Lemma emptied_world_steps w : steps w (emptied_world w).
Proof.
  unfold steps, emptied_world, rref, dict_of; cbn. repeat split; try done; try lia.
  intros r Hlt _. by rewrite lookup_insert_ne by lia.
Qed.

Lemma cached_world_wf cache l1 l2 w :
  wf w -> caches (self w) = l1 ++ cache :: l2 ->
  wf (cached_world cache ((l1 ++ l2) ++ [cache]) w).
Proof.
  intros Hwf Hcs. eapply restart_wf; [exact Hwf|apply cached_world_steps|done|cbn; lia|].
  cbn. rewrite Hcs, <- app_assoc. apply Permutation_app_head.
  by rewrite <- Permutation_cons_append.
Qed.

Lemma emptied_world_wf w : wf w -> wf (emptied_world w).
Proof.
  intros Hwf. eapply restart_wf; [exact Hwf|apply emptied_world_steps|done|cbn; lia|done].
Qed.

(** A property of worlds that each step of [rerender] keeps is kept by
    [rerender]. *)
Section Kept.
Variable I : World ops -> Prop.
Hypothesis I_append : forall s w u w0,
  wf w -> I w -> Stroke_render s w = Ok u w0 -> I (appended_world s w0).
Hypothesis I_populate : forall w u w',
  wf w -> I w -> populate_cache w = Ok u w' -> I w'.
Hypothesis I_cached : forall cache l1 l2 w,
  wf w -> I w -> caches (self w) = l1 ++ cache :: l2 ->
  I (cached_world cache ((l1 ++ l2) ++ [cache]) w).
Hypothesis I_emptied : forall w, wf w -> I w -> I (emptied_world w).

Lemma render_loop_kept new : forall caching w u w',
  render_loop caching new w = Ok u w' -> wf w -> I w -> I w'.
Proof using I_append I_populate.
  induction new as [|s new IH]; intros caching w u w' H Hwf HI.
  - by injection H as _ <-.
  - cbn [render_loop] in H.
    apply bind_ok in H as (? & w1 & Hrun & H).
    pose proof (appended_world_wf _ _ _ _ Hwf Hrun) as Hwf2.
    pose proof (I_append _ _ _ _ Hwf HI Hrun) as HI2.
    apply bind_ok in H as (? & ? & [= <- <-] & H).
    apply bind_ok in H as (? & w2 & Hrun2 & H).
    rewrite list_append_run in Hrun2. injection Hrun2 as _ <-.
    fold (rref w1) in H. fold (appended_world s w1) in H.
    apply bind_ok in H as (? & w3 & Hrun3 & H).
    assert (wf w3 /\ I w3) as [Hwf3 HI3].
    { destruct (caching_step caching s).
      - split; [by eapply populate_cache_wf|by eapply I_populate].
      - by injection Hrun3 as _ <-. }
    by eapply IH.
Qed.

Lemma render_new_strokes_kept w u w' :
  render_new_strokes w = Ok u w' -> wf w -> I w -> I w'.
Proof using I_append I_populate.
  unfold render_new_strokes. intros H Hwf HI.
  apply bind_ok in H as (? & ? & [= <- <-] & H).
  destruct (strokes_from_to w _ _) as [new|]; [|discriminate].
  apply bind_ok in H as (caching & w1 & Hrun & H).
  assert (w1 = w) as ->.
  { destruct (_ >? _); [destruct (py_index _ _)|]; by inversion Hrun. }
  apply bind_ok in H as (? & w2 & Hloop & H).
  apply bind_ok in H as (? & ? & [= <- <-] & H).
  apply py_assert_ok in H as [_ ->]. by eapply render_loop_kept.
Qed.

Lemma rerender_kept addr est w cost w' :
  rerender addr est w = Ok cost w' -> wf w -> I w -> I w'.
Proof using I_append I_populate I_cached I_emptied.
  intros H Hwf HI.
  destruct (Z.le_gt_cases (count_strokes_from w (rendered (self w))) 1) as [Hc|Hc].
  - rewrite rerender_early in H by done.
    apply bind_ok in H as (? & w1 & Hrun & H). injection H as _ <-.
    destruct (_ && _).
    + by eapply render_new_strokes_kept.
    + by injection Hrun as _ <-.
  - destruct (rerender_select addr est w Hc) as (c & render & Hmin & Hre).
    rewrite Hre in H. destruct est; [by injection H as _ <-|].
    apply bind_ok in H as (? & w1 & Hrun & H). injection H as _ <-.
    apply py_min_elem_of, options_elem_of in Hmin
      as [[_ Hf]|[(cache & Hin & _ & Hf)|[_ Hf]]]; cbn in Hf; rewrite Hf in Hrun;
      cbn [run] in Hrun.
    + by eapply render_new_strokes_kept.
    + destruct (list_remove_elem_of _ _ Hin) as [cs Hrm].
      destruct (list_remove_NoDup _ _ _ (proj1 (proj2 (proj2 Hwf))) Hin Hrm)
        as (l1 & l2 & Hcs & ->).
      rewrite (render_cached_run _ _ _ Hrm) in Hrun.
      eapply render_new_strokes_kept; [exact Hrun|by apply cached_world_wf|].
      by apply I_cached.
    + rewrite render_from_empty_run in Hrun.
      eapply render_new_strokes_kept; [exact Hrun|by apply emptied_world_wf|].
      by apply I_emptied.
Qed.

End Kept.

End Invariants.


(** ** The surface shows the strokes *)

Section Coherence.
Context {ops : SurfaceOps}.
Implicit Types (w : World ops) (c cache : Cache ops) (cs : list (Cache ops)).

Lemma replay_stroke_ext w w' s sf :
  (forall o name, name <> "rendered" -> dict_of w' o !! name = dict_of w o !! name) ->
  replay_stroke w' s sf = replay_stroke w s sf.
Proof. intros Ho. unfold replay_stroke. by rewrite !Ho by done. Qed.

Lemma painted_ext w w' bg l :
  (forall o name, name <> "rendered" -> dict_of w' o !! name = dict_of w o !! name) ->
  painted w' bg l = painted w bg l.
Proof.
  intros Ho. unfold painted. generalize (base_surface bg).
  induction l as [|s l IH]; intros sf; [done|]. cbn.
  rewrite (replay_stroke_ext w w') by done. apply IH.
Qed.

Lemma painted_snoc w bg l s :
  painted w bg (l ++ [s]) = replay_stroke w s (painted w bg l).
Proof. unfold painted. by rewrite foldl_app. Qed.

Lemma coherent_append s w u w0 :
  wf w -> coherent w -> Stroke_render s w = Ok u w0 -> coherent (appended_world s w0).
Proof.
  intros (_ & _ & _ & Hall) [Hsf Hcs] H.
  pose proof (Stroke_render_steps _ _ _ _ H)
    as ((_ & _ & _ & _ & _ & _ & _ & Ho) & Hr & Hl & _ & Hc & _).
  apply Stroke_render_ok in H
    as (_ & _ & _ & _ & _ & _ & bs & st & seed & data & Hbs & Hst & Hseed & Hdata & Hself).
  assert (Ho' : forall o name, name <> "rendered" ->
            dict_of (appended_world s w0) o !! name = dict_of w o !! name).
  { intros o name Hname. by apply (Ho o name). }
  split.
  - unfold appended_world at 1 2 4. cbn. fold (rref w0).
    rewrite list_of_insert_eq, painted_snoc, (painted_ext w (appended_world s w0)) by done.
    rewrite (replay_stroke_ext w (appended_world s w0)) by done.
    rewrite Hself; cbn. unfold replay_stroke. rewrite Hbs, Hst, Hseed, Hdata.
    rewrite Hsf. unfold list_of. rewrite Hr, Hl. done.
  - unfold appended_world at 2. cbn. rewrite Hc.
    rewrite Forall_forall in Hall, Hcs |- *. intros c Hin sf.
    rewrite (Hcs c Hin), (painted_ext w (appended_world s w0)) by done.
    destruct (Hall c Hin) as (_ & _ & Hne).
    unfold appended_world, list_of; cbn.
    rewrite lookup_insert_ne by (rewrite Hr; congruence). by rewrite Hl.
Qed.

Lemma coherent_populate {laws : SurfaceLaws ops} w u w' :
  wf w -> coherent w -> populate_cache w = Ok u w' -> coherent w'.
Proof.
  intros (Hr & _ & _ & Hall) [Hsf Hcs].
  destruct (populate_cache_cases w) as [->|(_ & _ & ->)]; intros [= <- <-]; [done|].
  match goal with |- coherent ?x => set (w' := x) end.
  assert (Ho : forall o name, name <> "rendered" ->
            dict_of w' o !! name = dict_of w o !! name) by done.
  assert (Hl : forall r, (r < next_ref w)%nat -> list_of w' r = list_of w r).
  { intros r Hlt. unfold list_of, w'; cbn. by rewrite lookup_insert_ne by lia. }
  assert (Hnew : list_of w' (S (next_ref w)) = list_of w (rref w)).
  { unfold list_of at 1, w'; cbn. by rewrite lookup_insert_eq. }
  split.
  - change (surface (self w)
            = painted w' (s_background (rendered (self w))) (list_of w' (rref w))).
    by rewrite (painted_ext w w'), Hl.
  - change (caches (self w'))
      with (drop_caches (caches (self w))
            ++ [mkCache (next_ref w) (S (next_ref w)) (s_background (rendered (self w)))
                  (surface_save_snapshot (surface (self w)))]).
    apply Forall_app. split.
    + rewrite Forall_forall in Hall, Hcs |- *. intros c Hin sf.
      assert (c ∈ caches (self w)) as Hin'.
      { eapply elem_of_sublist; [exact Hin|apply drop_caches_sublist]. }
      destruct (Hall c Hin') as (_ & Hlt & _).
      by rewrite (Hcs c Hin'), (painted_ext w w'), Hl.
    + apply Forall_singleton. intros sf. cbn [c_snapshot c_background c_strokes].
      by rewrite snapshot_restore, (painted_ext w w'), Hnew.
Qed.

Lemma coherent_cached cache l1 l2 w :
  wf w -> coherent w -> caches (self w) = l1 ++ cache :: l2 ->
  coherent (cached_world cache ((l1 ++ l2) ++ [cache]) w).
Proof.
  intros (_ & _ & _ & Hall) [Hsf Hcs] Hcaches.
  set (w' := cached_world _ _ _).
  assert (Ho : forall o name, name <> "rendered" ->
            dict_of w' o !! name = dict_of w o !! name) by done.
  assert (Hl : forall r, (r < next_ref w)%nat -> list_of w' r = list_of w r).
  { intros r Hlt. unfold list_of, w', cached_world; cbn.
    by rewrite lookup_insert_ne by lia. }
  assert (Hnew : list_of w' (next_ref w) = list_of w (c_strokes cache)).
  { unfold list_of at 1, w', cached_world; cbn. by rewrite lookup_insert_eq. }
  assert (Hin : cache ∈ caches (self w)).
  { rewrite Hcaches. apply elem_of_app. right. apply list_elem_of_here. }
  rewrite Forall_forall in Hall, Hcs.
  split.
  - change (surface_load_snapshot (c_snapshot cache) (surface (self w))
            = painted w' (c_background cache) (list_of w' (next_ref w))).
    by rewrite (Hcs cache Hin), (painted_ext w w'), Hnew.
  - change (caches (self w')) with ((l1 ++ l2) ++ [cache]).
    apply Forall_forall. intros c Hc sf.
    assert (c ∈ caches (self w)) as Hc'.
    { rewrite Hcaches. rewrite <- app_assoc in Hc.
      apply elem_of_app in Hc as [Hc|Hc]; [apply elem_of_app; by left|].
      apply elem_of_app in Hc as [Hc|Hc].
      - apply elem_of_app. right. by apply list_elem_of_further.
      - apply list_elem_of_singleton in Hc as ->.
        apply elem_of_app. right. apply list_elem_of_here. }
    destruct (Hall c Hc') as (_ & Hlt & _).
    by rewrite (Hcs c Hc'), (painted_ext w w'), Hl.
Qed.

Lemma coherent_emptied {laws : SurfaceLaws ops} w : wf w -> coherent w -> coherent (emptied_world w).
Proof.
  intros (_ & _ & _ & Hall) [Hsf Hcs].
  set (w' := emptied_world w).
  assert (Ho : forall o name, name <> "rendered" ->
            dict_of w' o !! name = dict_of w o !! name) by done.
  assert (Hl : forall r, (r < next_ref w)%nat -> list_of w' r = list_of w r).
  { intros r Hlt. unfold list_of, w', emptied_world; cbn.
    by rewrite lookup_insert_ne by lia. }
  assert (Hnew : list_of w' (next_ref w) = []).
  { unfold list_of at 1, w', emptied_world; cbn. by rewrite lookup_insert_eq. }
  rewrite Forall_forall in Hall, Hcs.
  split.
  - change (match background (self w) with
            | Some bg => surface_load bg (surface (self w))
            | None => surface_clear (surface (self w))
            end = painted w' (background (self w)) (list_of w' (next_ref w))).
    rewrite Hnew. unfold painted, base_surface; cbn.
    destruct (background (self w)); [apply load_new|apply clear_new].
  - change (caches (self w')) with (caches (self w)).
    apply Forall_forall. intros c Hc sf.
    destruct (Hall c Hc) as (_ & Hlt & _).
    by rewrite (Hcs c Hc), (painted_ext w w'), Hl.
Qed.

(** X14. Whichever way [rerender] takes, the surface ends as the replay
    of all the strokes of the layer over its background. On a surface
    whose snapshots bring back what was saved, if the surface shows what
    [self.rendered] says and every cache holds the snapshot of its own
    strokes, then after [rerender(False)] the surface is what replaying
    [self.strokes] in order from the background gives, and the caches
    still hold the snapshots of their strokes. *)
Theorem rerender_paints_the_strokes {laws : SurfaceLaws ops} addr w cost w' :
  wf w -> coherent w -> rerender addr false w = Ok cost w' ->
  coherent w' /\
  surface (self w') = painted w' (background (self w')) (list_of w' (strokes (self w'))) /\
  painted w' (background (self w')) (list_of w' (strokes (self w')))
  = painted w (background (self w)) (list_of w' (strokes (self w'))).
Proof.
  intros Hwf Hco H.
  assert (Hco' : coherent w').
  { eapply (rerender_kept coherent); try exact H; try done.
    - apply coherent_append.
    - apply coherent_populate.
    - apply coherent_cached.
    - apply coherent_emptied. }
  split; [done|].
  pose proof (rerender_in_sync _ _ _ _ H) as [Hbg Hl]%strokes_from_to_Some.
  rewrite app_nil_r in Hl. cbn in Hbg, Hl.
  split.
  - destruct Hco' as [Hsf _]. rewrite Hsf. unfold rref. by rewrite Hbg, Hl.
  - apply rerender_ok in H as (_ & (_ & _ & Hb & _ & _ & _ & _ & Ho) & _); [|done].
    rewrite Hb. by apply painted_ext.
Qed.

Lemma caches_worth_populate w u w' :
  wf w -> caches_worth w -> populate_cache w = Ok u w' -> caches_worth w'.
Proof.
  intros (_ & _ & _ & Hall) Hcw.
  destruct (populate_cache_cases w) as [->|(Hlen & _ & ->)]; intros [= <- <-]; [done|].
  unfold caches_worth in *; cbn. apply Forall_app. split.
  - rewrite Forall_forall in Hall, Hcw |- *. intros c Hin.
    assert (c ∈ caches (self w)) as Hin'.
    { eapply elem_of_sublist; [exact Hin|apply drop_caches_sublist]. }
    destruct (Hall c Hin') as (_ & Hlt & _).
    unfold list_of; cbn. rewrite lookup_insert_ne by lia. by apply Hcw.
  - apply Forall_singleton. unfold list_of at 1; cbn.
    by rewrite lookup_insert_eq.
Qed.

Lemma caches_worth_append s w u w0 :
  wf w -> caches_worth w -> Stroke_render s w = Ok u w0 ->
  caches_worth (appended_world s w0).
Proof.
  intros (_ & _ & _ & Hall) Hcw H.
  apply Stroke_render_steps in H as ((_ & _ & _ & Hstc & _) & Hr & Hl & _ & Hc & _).
  unfold caches_worth, appended_world in *; cbn. rewrite Hc, Hstc.
  rewrite Forall_forall in Hall, Hcw |- *. intros c Hin.
  destruct (Hall c Hin) as (_ & _ & Hne).
  unfold list_of; cbn. rewrite lookup_insert_ne by (rewrite Hr; congruence).
  rewrite Hl. by apply Hcw.
Qed.

Lemma caches_worth_cached cache l1 l2 w :
  wf w -> caches_worth w -> caches (self w) = l1 ++ cache :: l2 ->
  caches_worth (cached_world cache ((l1 ++ l2) ++ [cache]) w).
Proof.
  intros (_ & _ & _ & Hall) Hcw Hcaches.
  unfold caches_worth, cached_world in *; cbn.
  rewrite Forall_forall in Hall, Hcw |- *. intros c Hc.
  assert (c ∈ caches (self w)) as Hc'.
  { rewrite Hcaches. rewrite <- app_assoc in Hc.
    apply elem_of_app in Hc as [Hc|Hc]; [apply elem_of_app; by left|].
    apply elem_of_app in Hc as [Hc|Hc].
    - apply elem_of_app. right. by apply list_elem_of_further.
    - apply list_elem_of_singleton in Hc as ->.
      apply elem_of_app. right. apply list_elem_of_here. }
  destruct (Hall c Hc') as (_ & Hlt & _).
  unfold list_of; cbn. rewrite lookup_insert_ne by lia. by apply Hcw.
Qed.

Lemma caches_worth_emptied w :
  wf w -> caches_worth w -> caches_worth (emptied_world w).
Proof.
  intros (_ & _ & _ & Hall) Hcw.
  unfold caches_worth, emptied_world in *; cbn.
  rewrite Forall_forall in Hall, Hcw |- *. intros c Hc.
  destruct (Hall c Hc) as (_ & Hlt & _).
  unfold list_of; cbn. rewrite lookup_insert_ne by lia. by apply Hcw.
Qed.

(** X15. No cache entry is made of fewer strokes than the threshold: if
    every entry holds at least [strokes_to_cache] strokes, it is so
    after [populate_cache] and after [rerender]. *)
Theorem caches_hold_threshold w :
  wf w -> caches_worth w ->
  (forall u w', populate_cache w = Ok u w' -> caches_worth w') /\
  (forall addr est cost w', rerender addr est w = Ok cost w' -> caches_worth w').
Proof.
  intros Hwf Hcw. split; [intros u w'; by apply caches_worth_populate|].
  intros addr est cost w' H.
  eapply (rerender_kept caches_worth); try exact H; try done.
  - apply caches_worth_append.
  - apply caches_worth_populate.
  - apply caches_worth_cached.
  - apply caches_worth_emptied.
Qed.

End Coherence.


(** ** The exceptions of rerender *)

Section Exceptions.
Context {ops : SurfaceOps}.
Implicit Types (w : World ops) (c cache : Cache ops) (e : Exn).

Lemma bind_raise_inv {A B} (m : M (World ops) A) (k : A -> M (World ops) B) w e :
  bind m k w = Raise e ->
  m w = Raise e \/ exists a w1, m w = Ok a w1 /\ k a w1 = Raise e.
Proof.
  unfold bind. destruct (m w) as [a w1|e']; intros H; [right; eauto|].
  injection H as ->. by left.
Qed.

Lemma getattr_raise_inv o name w e :
  getattr o name w = Raise e -> e = AttributeError.
Proof.
  unfold getattr. destruct (objs w !! o) as [d|]; [|by intros [= <-]].
  destruct (d !! name); [discriminate|by intros [= <-]].
Qed.

Lemma Stroke_render_raise s w e :
  Stroke_render s w = Raise e -> e = AssertionError \/ e = AttributeError.
Proof.
  unfold Stroke_render. intros H.
  apply bind_raise_inv in H as [H|(f & ? & Hf & H)];
    [right; by eapply getattr_raise_inv|].
  apply bind_raise_inv in H as [H|(? & ? & Ha & H)].
  { left. unfold py_assert in H. destruct (truthy f); [discriminate|].
    by injection H as <-. }
  apply bind_raise_inv in H as [H|(bbox & ? & Hb & H)];
    [right; by eapply getattr_raise_inv|].
  destruct bbox; try (right; by injection H as <-).
  do 4 (apply bind_raise_inv in H as [H|(? & ? & _ & H)];
        [right; by eapply getattr_raise_inv|]).
  apply bind_raise_inv in H as [H|(? & ? & _ & H)]; discriminate.
Qed.

Lemma populate_cache_returns w : exists w', populate_cache w = Ok tt w'.
Proof. destruct (populate_cache_cases w) as [H|(_ & _ & H)]; eauto. Qed.

Lemma render_loop_raise new : forall caching w e,
  render_loop caching new w = Raise e -> e = AssertionError \/ e = AttributeError.
Proof.
  induction new as [|s new IH]; intros caching w e H; [discriminate|].
  cbn [render_loop] in H.
  apply bind_raise_inv in H as [H|(? & w1 & _ & H)]; [by eapply Stroke_render_raise|].
  apply bind_raise_inv in H as [H|(? & ? & [= <- <-] & H)]; [discriminate|].
  apply bind_raise_inv in H as [H|(? & w2 & _ & H)]; [discriminate|].
  apply bind_raise_inv in H as [H|(? & w3 & _ & H)]; [|by eapply IH].
  destruct (caching_step caching s); [|discriminate].
  destruct (populate_cache_returns w2) as [w' Hp]. congruence.
Qed.

Lemma render_new_strokes_raise w e :
  render_new_strokes w = Raise e ->
  e = AssertionError \/ e = AttributeError \/
  (e = TypeError /\
   strokes_from_to w (rendered (self w)) (layer_struct (self w)) = None) \/
  (e = IndexError /\ strokes_to_cache (self w) < 0).
Proof.
  unfold render_new_strokes. intros H.
  apply bind_raise_inv in H as [H|(? & ? & [= <- <-] & H)]; [discriminate|].
  destruct (strokes_from_to w _ _) as [new|] eqn:E;
    [|right; right; left; by injection H as <-].
  apply bind_raise_inv in H as [H|(caching & w1 & _ & H)].
  { right; right; right.
    destruct (Z.gtb_spec (Z.of_nat (length new)) (2 * strokes_to_cache (self w)));
      [|discriminate].
    unfold py_index in H.
    destruct (Z.ltb_spec (- 2 * strokes_to_cache (self w)) 0).
    - destruct (Z.ltb_spec (Z.of_nat (length new) + - 2 * strokes_to_cache (self w)) 0);
        [lia|].
      destruct (lookup_lt_is_Some_2 new
                  (Z.to_nat (Z.of_nat (length new) + - 2 * strokes_to_cache (self w))))
        as [s Hs]; [lia|]. rewrite Hs in H. discriminate.
    - destruct (new !! Z.to_nat (- 2 * strokes_to_cache (self w))) eqn:Hnone;
        [discriminate|].
      apply lookup_ge_None in Hnone.
      injection H as <-. split; [done|]. lia. }
  apply bind_raise_inv in H as [H|(? & w2 & _ & H)].
  { apply render_loop_raise in H as [->| ->]; auto. }
  apply bind_raise_inv in H as [H|(? & ? & [= <- <-] & H)]; [discriminate|].
  left. unfold py_assert in H. destruct (bool_decide _); [discriminate|].
  by injection H as <-.
Qed.

Lemma cached_world_strokes_from_to cache cs w new :
  wf w ->
  strokes_from_to w (cache_struct cache) (layer_struct (self w)) = Some new ->
  strokes_from_to (cached_world cache cs w)
    (rendered (self (cached_world cache cs w)))
    (layer_struct (self (cached_world cache cs w))) = Some new.
Proof.
  intros (_ & Hs & _) [Hbg Hl]%strokes_from_to_Some. cbn in Hbg, Hl.
  apply strokes_from_to_Some. split; [done|].
  unfold list_of, cached_world; cbn.
  rewrite lookup_insert_eq, lookup_insert_ne by lia. done.
Qed.

Lemma emptied_world_strokes_from_to w :
  wf w ->
  strokes_from_to (emptied_world w) (rendered (self (emptied_world w)))
    (layer_struct (self (emptied_world w)))
  = Some (list_of w (strokes (self w))).
Proof.
  intros (_ & Hs & _). apply strokes_from_to_Some. split; [done|].
  unfold list_of, emptied_world; cbn.
  rewrite lookup_insert_eq, lookup_insert_ne by lia. done.
Qed.

(** X16. How [rerender] can fail. [rerender(True)] never raises. A call
    of [rerender] never raises [ValueError]: [min] is not given an empty
    list, and the cache that [render_cached] removes is in the list. It
    raises [IndexError] only with a negative threshold. On a layer with a
    threshold that is not negative and fewer than [infinity] strokes, it
    raises an [AssertionError] or an [AttributeError] only, and it does so
    because a stroke of the layer cannot be rendered. *)
Theorem rerender_raises addr est w e :
  rerender addr est w = Raise e ->
  est = false /\ e <> ValueError /\
  (e = IndexError -> strokes_to_cache (self w) < 0) /\
  (wf w -> 0 <= strokes_to_cache (self w) ->
   Z.of_nat (length (list_of w (strokes (self w)))) + 3 < infinity ->
   (e = AssertionError \/ e = AttributeError) /\ all_renderable w = false).
Proof.
  intros H.
  assert (Hstc : forall w1, steps w w1 ->
            strokes_to_cache (self w1) = strokes_to_cache (self w)).
  { by intros w1 (_ & _ & _ & ? & _). }
  assert (exists w1, steps w w1 /\ est = false /\
            render_new_strokes w1 = Raise e /\
            (wf w -> Z.of_nat (length (list_of w (strokes (self w)))) + 3 < infinity ->
             is_Some (strokes_from_to w1 (rendered (self w1)) (layer_struct (self w1)))))
    as (w1 & St & Hest & Hr & Hsome).
  { destruct (Z.le_gt_cases (count_strokes_from w (rendered (self w))) 1) as [Hc|Hc].
    - rewrite rerender_early in H by done.
      apply bind_raise_inv in H as [H|(? & ? & _ & H)]; [|discriminate].
      destruct (count_strokes_from w (rendered (self w)) >? 0); [|discriminate].
      destruct est; [discriminate|]. exists w. split; [apply steps_refl|].
      do 2 (split; [done|]). intros _ _.
      destruct (count_finite w (rendered (self w))) as [new ->]; [unfold infinity; lia|done].
    - destruct (rerender_select addr est w Hc) as (cost & render & Hmin & Hre).
      rewrite Hre in H. destruct est; [discriminate|].
      apply bind_raise_inv in H as [H|(? & ? & _ & H)]; [|discriminate].
      assert (Hcost : Z.of_nat (length (list_of w (strokes (self w)))) + 3 < infinity ->
                      cost < infinity).
      { intros Hlen. destruct (options addr w) as [|b l] eqn:E; [discriminate|].
        injection Hmin as Hmin.
        assert ((empty_cost w, mkClosure (addr (S (length (caches (self w)))))
                                 RenderFromEmpty) ∈ b :: l) as Hlast.
        { rewrite <- E. unfold options. apply list_elem_of_further, elem_of_app.
          right. apply list_elem_of_here. }
        pose proof (min_from_least l b _ Hlast) as [Hle _].
        rewrite Hmin in Hle. cbn in Hle. unfold empty_cost in Hle.
        destruct (background (self w)); lia. }
      apply py_min_elem_of, options_elem_of in Hmin
        as [[Hcnt Hf]|[(cache & Hin & Hcnt & Hf)|[Hcnt Hf]]]; cbn in Hcnt, Hf;
        rewrite Hf in H; cbn [run] in H.
      + exists w. split; [apply steps_refl|]. do 2 (split; [done|]).
        intros _ Hlen. specialize (Hcost Hlen).
        destruct (count_finite w (rendered (self w))) as [new ->]; [lia|done].
      + destruct (list_remove_elem_of _ _ Hin) as [cs Hrm].
        rewrite (render_cached_run _ _ _ Hrm) in H.
        eexists. split; [apply cached_world_steps|]. do 2 (split; [done|]).
        intros Hwf Hlen. specialize (Hcost Hlen).
        destruct (count_finite w (cache_struct cache)) as [new Hnew]; [lia|].
        by rewrite (cached_world_strokes_from_to _ _ _ _ Hwf Hnew).
      + rewrite render_from_empty_run in H.
        eexists. split; [apply emptied_world_steps|]. do 2 (split; [done|]).
        intros Hwf _. by rewrite emptied_world_strokes_from_to. }
  split; [done|].
  apply render_new_strokes_raise in Hr as Hcases.
  rewrite (Hstc _ St) in Hcases.
  split; [|split].
  - destruct Hcases as [->|[->|[[-> _]|[-> _]]]]; discriminate.
  - intros ->. destruct Hcases as [?|[?|[[? _]|[_ ?]]]]; done.
  - intros Hwf Hstc0 Hlen. split.
    + destruct Hcases as [?|[?|[[_ Hnone]|[_ ?]]]]; [by left|by right| |lia].
      destruct (Hsome Hwf Hlen) as [new Hnew]. congruence.
    + destruct (all_renderable w) eqn:Hall; [|done].
      destruct (rerender_completes addr w Hwf Hstc0 Hall Hlen) as (c & w' & Hok).
      subst est. congruence.
Qed.

End Exceptions.


(** ** Undo, append, and repeated calls *)

Section Compose.
Context {ops : SurfaceOps}.
Implicit Types (w : World ops) (c cache : Cache ops) (cs : list (Cache ops)).

(** X17. After an undo, when the layer has fewer strokes than are
    rendered, continuing is impossible: its cost is [infinity], and
    [rerender] runs [render_cached] or [render_from_empty], never
    [render_new_strokes]. *)
Theorem rerender_after_undo addr w :
  (length (list_of w (strokes (self w))) < length (list_of w (rref w)))%nat ->
  count_strokes_from w (rendered (self w)) = infinity /\
  (Z.of_nat (length (list_of w (strokes (self w)))) + 3 < infinity ->
   exists cost render,
     py_min (options addr w) = Some (cost, render) /\
     rerender addr false w = (run (fn_code render) ;; ret cost) w /\
     fn_code render <> RenderNewStrokes).
Proof.
  intros Hlen.
  assert (Hc : count_strokes_from w (rendered (self w)) = infinity).
  { unfold count_strokes_from.
    destruct (strokes_from_to _ _ _) as [new|] eqn:E; [|done].
    apply strokes_from_to_Some in E as [_ E]. cbn in E. fold (rref w) in E.
    rewrite E, length_app in Hlen. lia. }
  split; [done|]. intros Hfin.
  destruct (rerender_select addr false w) as (cost & render & Hmin & Hre).
  { rewrite Hc. unfold infinity. lia. }
  exists cost, render. split; [done|]. split; [done|].
  intros Hf.
  destruct (options addr w) as [|b l] eqn:E; [discriminate|].
  injection Hmin as Hmin.
  assert ((empty_cost w, mkClosure (addr (S (length (caches (self w)))))
                           RenderFromEmpty) ∈ b :: l) as Hlast.
  { rewrite <- E. unfold options. apply list_elem_of_further, elem_of_app.
    right. apply list_elem_of_here. }
  pose proof (min_from_least l b _ Hlast) as [Hle _].
  rewrite Hmin in Hle. cbn in Hle.
  assert ((cost, render) ∈ options addr w) as Hin.
  { rewrite E, <- Hmin. apply min_from_elem_of. }
  apply options_elem_of in Hin as [[Hcnt _]|[(cache & _ & _ & Hf')|[_ Hf']]];
    cbn in *; try congruence.
  unfold empty_cost in Hle. destruct (background (self w)); lia.
Qed.

(** X18. A rendered stroke can be rendered again: [render] does not use
    up what it replays. After a [render] the same stroke renders again,
    with the same settings, state, seed and data, and every attribute
    stays as the first [render] left it. *)
Theorem Stroke_render_again s w w1 :
  Stroke_render s w = Ok tt w1 ->
  exists w2 bs st seed data,
    Stroke_render s w1 = Ok tt w2 /\
    (forall o, dict_of w2 o = dict_of w1 o) /\ lists w2 = lists w1 /\
    surface (self w1) = surface_replay bs st seed data (surface (self w)) /\
    surface (self w2) = surface_replay bs st seed data (surface (self w1)).
Proof.
  intros H.
  pose proof (Stroke_render_steps _ _ _ _ H) as (St & _).
  assert (Hren : renderable w s = true).
  { unfold Stroke_render in H. unfold renderable.
    bind_inv H. apply getattr_ok in Hrun as [-> ->].
    bind_inv H. apply py_assert_ok in Hrun as [-> ->].
    bind_inv H. apply getattr_ok in Hrun as [-> ->].
    destruct a1; try discriminate.
    bind_inv H. apply getattr_ok in Hrun as [-> ->].
    bind_inv H. apply getattr_ok in Hrun as [-> ->].
    bind_inv H. apply getattr_ok in Hrun as [-> ->].
    bind_inv H. apply getattr_ok in Hrun as [-> ->].
    cbn. rewrite ?bool_decide_eq_true_2 by done. done. }
  destruct (Stroke_render_total w1 s) as [w2 H2]; [by eapply renderable_steps|].
  apply Stroke_render_ok in H
    as (_ & Hd & Ho & _ & _ & _ & bs & st & seed & data & Hbs & Hst & Hseed & Hdata & Hself).
  pose proof H2 as H2'.
  apply Stroke_render_ok in H2'
    as (_ & Hd2 & Ho2 & Hl2 & _ & _ & bs' & st' & seed' & data' & Hbs' & Hst' & Hseed' & Hdata'
        & Hself2).
  rewrite Hd, lookup_insert_ne in Hbs', Hst', Hseed', Hdata' by done.
  assert (bs' = bs) as -> by congruence. assert (st' = st) as -> by congruence.
  assert (seed' = seed) as -> by congruence. assert (data' = data) as -> by congruence.
  exists w2, bs, st, seed, data. split; [done|]. split.
  { intros o. destruct (decide (o = s)) as [->|Hne]; [|by apply Ho2].
    rewrite Hd2, Hd. by rewrite insert_insert_eq. }
  split; [done|]. split; [by rewrite Hself|by rewrite Hself2].
Qed.

Lemma close_enough_last w cs c :
  strokes_from_to w (cache_struct c) (rendered (self w)) = Some [] ->
  0 < strokes_to_cache (self w) ->
  close_enough w (cs ++ [c]) = true.
Proof.
  intros Hc Hstc. induction cs as [|c' cs IH]; cbn [app close_enough].
  - rewrite Hc. change (Z.of_nat (length [])) with 0.
    destruct (Z.ltb_spec 0 (strokes_to_cache (self w))); [done|lia].
  - rewrite IH. destruct (strokes_from_to w (cache_struct c') _); [|done].
    by destruct (_ <? _).
Qed.

(** X19. [populate_cache] stores no second entry for the same rendered
    state: with a positive threshold, a call that follows another one at
    once changes nothing, whether the first call stored an entry or
    not. *)
Theorem populate_cache_twice w w1 :
  wf w -> 0 < strokes_to_cache (self w) ->
  populate_cache w = Ok tt w1 ->
  populate_cache w1 = Ok tt w1.
Proof.
  intros (Hr & _) Hstc H.
  destruct (populate_cache_cases w) as [H0|(Hlen & _ & H0)]; rewrite H0 in H.
  { by injection H as <-. }
  injection H as <-.
  match goal with |- populate_cache ?x = _ => set (w1 := x) end.
  assert (Hl : list_of w1 (rref w1) = list_of w (rref w)).
  { change (rref w1) with (rref w). unfold list_of. cbn.
    rewrite lookup_insert_ne by lia. done. }
  unfold populate_cache, bind, get. fold (rref w1). rewrite Hl.
  replace (strokes_to_cache (self w1)) with (strokes_to_cache (self w)) by done.
  destruct (Z.ltb_spec (Z.of_nat (length (list_of w (rref w))))
              (strokes_to_cache (self w))); [done|].
  replace (caches (self w1)) with
    (drop_caches (caches (self w))
     ++ [mkCache (next_ref w) (S (next_ref w)) (s_background (rendered (self w)))
           (surface_save_snapshot (surface (self w)))]) by done.
  rewrite close_enough_last; [done| |done].
  apply strokes_from_to_Some. split; [done|].
  change (list_of w1 (rref w1) = list_of w1 (S (next_ref w)) ++ []).
  rewrite Hl, app_nil_r. unfold list_of at 2. cbn. by rewrite lookup_insert_eq.
Qed.

(** X20. Painting one more stroke on a layer that is in sync: when the
    caller appends a stroke to [self.strokes], [rerender] counts one
    stroke to render, and [rerender(False)] replays that stroke alone on
    the surface as it is and returns 1. If however [self.strokes] is the
    very list object of [self.rendered.strokes], the append reaches both
    and [rerender] finds nothing to do. *)
Theorem append_then_rerender addr w s :
  count_strokes_from w (rendered (self w)) = 0 ->
  exists w1,
    append_stroke s w = Ok tt w1 /\
    (strokes (self w) = rref w ->
     forall est, rerender addr est w1 = Ok 0 w1) /\
    (strokes (self w) <> rref w ->
     count_strokes_from w1 (rendered (self w1)) = 1 /\
     rerender addr true w1 = Ok 1 w1 /\
     (wf w -> 0 <= strokes_to_cache (self w) -> renderable w s = true ->
      exists w2,
        rerender addr false w1 = Ok 1 w2 /\
        surface (self w2) = replay_stroke w s (surface (self w)) /\
        list_of w2 (rref w2) = list_of w (rref w) ++ [s])).
Proof.
  intros Hc.
  assert (Hsync : strokes_from_to w (rendered (self w)) (layer_struct (self w)) = Some []).
  { unfold count_strokes_from in Hc.
    destruct (strokes_from_to _ _ _) as [new|]; [|by unfold infinity in Hc].
    destruct new; [done|]. cbn in Hc. lia. }
  apply strokes_from_to_Some in Hsync as [Hbg Hl]. cbn in Hbg, Hl.
  rewrite app_nil_r in Hl. fold (rref w) in Hl.
  unfold append_stroke, bind, get. rewrite list_append_run.
  eexists. split; [done|].
  match goal with |- context [rerender _ _ ?x] => set (w1 := x) end.
  split.
  - intros Heq est.
    assert (Hc1 : count_strokes_from w1 (rendered (self w1)) = 0).
    { unfold count_strokes_from.
      assert (strokes_from_to w1 (rendered (self w1)) (layer_struct (self w1)) = Some [])
        as ->; [|done].
      apply strokes_from_to_Some. cbn. split; [done|].
      fold (rref w). rewrite Heq. by rewrite app_nil_r. }
    rewrite rerender_early by lia. by rewrite Hc1.
  - intros Hne.
    assert (Hnew : strokes_from_to w1 (rendered (self w1)) (layer_struct (self w1))
                   = Some [s]).
    { apply strokes_from_to_Some. cbn. split; [done|].
      fold (rref w). unfold list_of at 1 2. cbn.
      rewrite lookup_insert_eq, lookup_insert_ne by done. cbn.
      fold (list_of w (rref w)). by rewrite Hl. }
    assert (Hc1 : count_strokes_from w1 (rendered (self w1)) = 1).
    { unfold count_strokes_from. by rewrite Hnew. }
    split; [done|]. split.
    { rewrite rerender_early by lia. by rewrite Hc1. }
    intros Hwf Hstc Hren.
    assert (Hwf1 : wf w1).
    { destruct Hwf as (? & ? & ? & ?). by repeat split. }
    assert (Hren1 : renderable w1 s = true) by done.
    destruct (render_new_strokes_total w1 [s]) as [w2 H2]; try done.
    { cbn. by rewrite Hren1. }
    exists w2. rewrite rerender_early by lia. rewrite Hc1. cbn [Z.gtb Z.compare andb negb].
    rewrite (bind_run _ _ _ _ _ H2). split; [done|].
    pose proof (render_new_strokes_ok _ _ _ H2 Hwf1) as (_ & _ & Hr & _ & new & Hn & Hl2).
    rewrite Hnew in Hn. injection Hn as <-.
    split.
    + unfold render_new_strokes in H2.
      bind_inv H2. injection Hrun as <- <-. rewrite Hnew in H2.
      bind_inv H2.
      assert (w0 = w1) as ->.
      { destruct (_ >? _); [destruct (py_index _ _)|]; by inversion Hrun. }
      bind_inv H2. cbn [render_loop] in Hrun0.
      bind_inv Hrun0. rename Hrun1 into Hsr.
      apply Stroke_render_ok in Hsr
        as (_ & _ & _ & _ & _ & _ & bs & st & seed & data & Hbs & Hst & Hseed & Hdata & Hself).
      apply bind_ok in Hrun0 as (? & ? & [= <- <-] & Hrun0).
      apply bind_ok in Hrun0 as (? & w4 & Happ & Hrun0).
      rewrite list_append_run in Happ. injection Happ as _ <-.
      apply bind_ok in Hrun0 as (? & w5 & Hpop & [= _ <-]).
      apply bind_ok in H2 as (? & ? & [= <- <-] & H2).
      apply py_assert_ok in H2 as [_ ->].
      assert (Hs5 : surface (self w5) = surface (self w3)).
      { destruct (caching_step a s); [|by injection Hpop as _ <-].
        match type of Hpop with populate_cache ?x = _ =>
          destruct (populate_cache_cases x) as [H0|(_ & _ & H0)] end;
          rewrite H0 in Hpop; by injection Hpop as _ <-. }
      rewrite Hs5, Hself. unfold replay_stroke.
      change (dict_of w1 s) with (dict_of w s) in *.
      by rewrite Hbs, Hst, Hseed, Hdata.
    + rewrite Hr, Hl2. f_equal. change (rref w1) with (rref w).
      unfold list_of at 1. cbn. by rewrite lookup_insert_ne.
Qed.

End Compose.

(** ** Runs of the code *)


Lemma Stroke_copy_keeps_serial_number_witness :
  exists s,
    Stroke_copy 0%nat one_stroke_world = Ok s (exec (Stroke_copy 0%nat) one_stroke_world) /\
    s <> 0%nat /\
    dict_of one_stroke_world 0%nat !! "serial_number" = Some (VInt 1) /\
    dict_of (exec (Stroke_copy 0%nat) one_stroke_world) s !! "serial_number"
    = Some (VInt 1) /\
    serial_number (exec (Stroke_copy 0%nat) one_stroke_world) = 2.
Proof.
  destruct (succeeds_exec (Stroke_copy 0%nat) one_stroke_world) as [s H].
  { vm_compute. reflexivity. }
  assert (Hn : dict_of one_stroke_world 0%nat !! "serial_number" = Some (VInt 1)).
  { vm_compute. reflexivity. }
  destruct (Stroke_copy_keeps_serial_number one_stroke_world 0%nat s
              (exec (Stroke_copy 0%nat) one_stroke_world) (VInt 1))
    as (Hne & Hs & _ & Hc & _); [vm_compute; lia|exact Hn|exact H|].
  exists s. split; [exact H|]. split; [exact Hne|]. split; [exact Hn|].
  split; [exact Hs|]. rewrite Hc. vm_compute. reflexivity.
Defined.

(** C8, as the claim states it, fails: on a fresh copy a second change of
    the brush settings, before any rendering, succeeds as the first did. *)
Lemma change_brush_settings_twice :
  let w1 := exec (Stroke_copy 0%nat) one_stroke_world in
  let w2 := exec (change_brush_settings 1%nat (VStr "first")) w1 in
  let w3 := exec (change_brush_settings 1%nat (VStr "second")) w2 in
  result (Stroke_copy 0%nat) one_stroke_world = Some 1%nat /\
  succeeds (change_brush_settings 1%nat (VStr "first")) w1 = true /\
  succeeds (change_brush_settings 1%nat (VStr "second")) w2 = true /\
  dict_of w3 1%nat !! "brush_settings" = Some (VStr "second") /\
  dict_of w3 1%nat !! "rendered" = Some (VBool false).
Proof.
  cbv zeta.
  split; [vm_compute; reflexivity|].
  split; [vm_compute; reflexivity|].
  split; [vm_compute; reflexivity|].
  split; vm_compute; reflexivity.
Qed.

Lemma change_brush_settings_until_rendered_witness :
  exists w2,
    change_brush_settings_each 1%nat [VStr "a"; VStr "b"; VStr "c"]
      (exec (Stroke_copy 0%nat) one_stroke_world) = Ok tt w2.
Proof.
  destruct (change_brush_settings_until_rendered one_stroke_world 0%nat 1%nat
              (exec (Stroke_copy 0%nat) one_stroke_world)) as (Hall & _).
  - vm_compute. lia.
  - vm_compute. reflexivity.
  - apply (Hall [VStr "a"; VStr "b"; VStr "c"]).
Defined.

(** *** C1 *)

Lemma rerender_rendered_strokes_witness :
  let w' := exec (rerender addr_up false) (painted_world 5) in
  succeeds (rerender addr_up false) (painted_world 5) = true /\
  list_of w' (s_strokes (rendered (self w'))) = list_of w' (strokes (self w')) /\
  list_of w' (strokes (self w'))
  = list_of (painted_world 5) (strokes (self (painted_world 5))).
Proof.
  cbv zeta.
  destruct (rerender_rendered_strokes addr_up (painted_world 5)) as [Heq Hcomp].
  assert (Hwf : wf (painted_world 5)).
  { refine (bool_decide_eq_true_1 _ _). vm_compute. reflexivity. }
  destruct Hcomp as (cost & w' & H); [exact Hwf|..].
  - vm_compute. discriminate.
  - vm_compute. reflexivity.
  - vm_compute. reflexivity.
  - assert (exec (rerender addr_up false) (painted_world 5) = w') as ->.
    { unfold exec. by rewrite H. }
    split; [unfold succeeds; by rewrite H|].
    destruct (Heq cost w' H) as [Hr Hs]. split; [exact Hr|].
    apply Hs; [exact Hwf|]. vm_compute. discriminate.
Defined.

(** *** C2 *)

Lemma count_strokes_from_spec_witness :
  count_strokes_from one_more_world (rendered (self one_more_world)) = 1 /\
  count_strokes_from one_more_world (mkStruct 1%nat (Some 7%nat)) = infinity.
Proof.
  destruct (count_strokes_from_spec one_more_world (rendered (self one_more_world)))
    as (_ & _ & H).
  destruct (count_strokes_from_spec one_more_world (mkStruct 1%nat (Some 7%nat)))
    as (H' & _ & _).
  split.
  - rewrite H.
    + vm_compute. reflexivity.
    + vm_compute. reflexivity.
    + exists [5%nat]. vm_compute. reflexivity.
  - apply H'. vm_compute. discriminate.
Defined.

(** *** C3 *)


(** *** C4 *)

Lemma rerender_early_exit_witness :
  rerender addr_up true one_more_world = Ok 1 one_more_world /\
  rerender addr_up false one_more_world = (render_new_strokes ;; ret 1) one_more_world.
Proof.
  destruct (rerender_early_exit addr_up true one_more_world) as [H0 _].
  { vm_compute. discriminate. }
  destruct (rerender_early_exit addr_up false one_more_world) as [_ H1].
  { vm_compute. discriminate. }
  split.
  - rewrite H0; [|by right]. f_equal.
  - apply H1. vm_compute. reflexivity.
Defined.

(** *** C5 *)



(** *** C6 *)

(** C6, as the claim states it, fails: twenty distinct strokes are
    replayed on a new layer, and [populate_cache] stores an entry when
    nine strokes are rendered and eleven are still to come, which is not
    within six strokes of the end; a replay that cached during its last
    six strokes only would leave another list of caches. *)
Lemma caching_resumes_twelve_before_end :
  let w := painted_world 20 in
  let new := list_of w (strokes (self w)) in
  strokes_from_to w (rendered (self w)) (layer_struct (self w)) = Some new /\
  length new = 20%nat /\ NoDup new /\
  succeeds render_new_strokes w = true /\
  ((fun c => length (list_of (exec render_new_strokes w) (c_strokes c)))
     <$> caches (self (exec render_new_strokes w))) = [9; 15]%nat /\
  ((fun c => length (list_of (exec (replay_caching_last 6 new) w) (c_strokes c)))
     <$> caches (self (exec (replay_caching_last 6 new) w))) = [15]%nat /\
  render_new_strokes w <> replay_caching_last 6 new w.
Proof.
  cbv zeta.
  split; [vm_compute; reflexivity|].
  split; [vm_compute; reflexivity|].
  split; [refine (bool_decide_eq_true_1 _ _); vm_compute; reflexivity|].
  split; [vm_compute; reflexivity|].
  split; [vm_compute; reflexivity|].
  split; [vm_compute; reflexivity|].
  intros H. apply (f_equal (fun r => match r with
                                     | Ok _ w => length (caches (self w))
                                     | Raise _ => 0%nat
                                     end)) in H.
  vm_compute in H. discriminate.
Qed.

Lemma caching_deferred_to_last_twelve_witness :
  render_new_strokes (painted_world 20)
  = replay_caching_last 12 (list_of (painted_world 20) (strokes (self (painted_world 20))))
      (painted_world 20).
Proof.
  destruct (caching_deferred_to_last_twelve (painted_world 20)
              (list_of (painted_world 20) (strokes (self (painted_world 20)))))
    as (_ & H & _).
  - vm_compute. reflexivity.
  - vm_compute. reflexivity.
  - vm_compute. lia.
  - apply H. refine (bool_decide_eq_true_1 _ _). vm_compute. reflexivity.
Defined.

(** *** C10 *)


(** ** Runs of the code: strokes, costs and invariants *)

(** *** X1 *)

Lemma recorded_stroke_witness :
  result (record 0%nat 0%nat (VStr "brush") (VInt 7) 7 (VInt 107) 0 0 10 10 (VInt 1))
    empty_world = Some 0%nat /\
  renderable one_stroke_world 0%nat = true /\
  dict_of one_stroke_world 0%nat !! "empty" = Some (VBool false) /\
  change_brush_settings 0%nat (VStr "other") one_stroke_world = Raise AssertionError.
Proof.
  destruct (recorded_stroke 0%nat 0%nat (VStr "brush") (VInt 7) 7 (VInt 107) 0 0 10 10
              (VInt 1) empty_world)
    as (w' & H & Hr & _ & _ & _ & _ & He & _ & Hc & _).
  assert (one_stroke_world = w') as ->.
  { apply (exec_ok _ _ _ _ H). }
  split; [exact (result_ok _ _ _ _ H)|].
  split; [exact Hr|]. split; [exact He|]. apply Hc.
Defined.

(** *** X2 *)

Lemma recording_needs_unfinished_witness :
  start_recording 0%nat 0%nat 0%nat (VStr "brush") (VInt 1) 1 one_stroke_world
  = Raise AssertionError /\
  stop_recording 0%nat (VInt 1) 0 0 10 10 (VInt 1) one_stroke_world
  = Raise AssertionError /\
  stop_recording 0%nat (VInt 1) 0 0 10 10 (VInt 1) new_stroke_world
  = Raise AttributeError.
Proof.
  destruct (recording_needs_unfinished 0%nat one_stroke_world (VBool true)) as [H _].
  { vm_compute. reflexivity. }
  destruct H as [H1 H2]; [reflexivity|].
  destruct (recording_needs_unfinished 0%nat new_stroke_world (VBool false)) as [_ H3].
  { vm_compute. reflexivity. }
  split; [apply H1|]. split; [apply H2|].
  apply H3; [reflexivity|]. vm_compute. reflexivity.
Defined.

(** *** X3 *)

Lemma Stroke_render_spec_witness :
  succeeds (Stroke_render 0%nat) one_stroke_world = true /\
  Stroke_render 0%nat new_stroke_world = Raise AssertionError.
Proof.
  destruct (Stroke_render_spec 0%nat one_stroke_world) as ([_ H] & _).
  destruct H as [w' H]; [vm_compute; reflexivity|].
  destruct (Stroke_render_spec 0%nat new_stroke_world) as (_ & H2 & _).
  split; [exact (succeeds_ok _ _ _ _ H)|].
  apply (H2 (VBool false)); [|reflexivity]. vm_compute. reflexivity.
Defined.

(** *** X4 *)

Lemma Stroke_copy_spec_witness :
  Stroke_copy 0%nat new_stroke_world = Raise AssertionError /\
  result (Stroke_copy 0%nat) one_stroke_world = Some 1%nat /\
  dict_of (exec (Stroke_copy 0%nat) one_stroke_world) 0%nat = dict_of one_stroke_world 0%nat.
Proof.
  destruct (Stroke_copy_spec 0%nat new_stroke_world) as [H1 _].
  destruct (Stroke_copy_spec 0%nat one_stroke_world) as [_ H2].
  split.
  { apply (H1 (VBool false)); [|reflexivity]. vm_compute. reflexivity. }
  destruct (succeeds_exec (Stroke_copy 0%nat) one_stroke_world) as [s H];
    [vm_compute; reflexivity|].
  destruct (H2 _ _ H) as (Hs & _ & Ho & _).
  split; [rewrite (result_ok _ _ _ _ H), Hs; vm_compute; reflexivity|].
  apply Ho. rewrite Hs. vm_compute. discriminate.
Defined.

(** *** X5 *)

Lemma copy_with_other_settings_witness :
  let m := (s <- Stroke_copy 0%nat ;; change_brush_settings s (VStr "other") ;;
            Stroke_render s ;; ret s) in
  result m one_stroke_world = Some 1%nat /\
  surface (self (exec m one_stroke_world))
  = surface_replay (VStr "other") (VInt 7) (VInt 7) (VInt 107)
      (surface (self one_stroke_world)).
Proof.
  cbv zeta.
  destruct (copy_with_other_settings 0%nat (VStr "other") one_stroke_world)
    as (w' & st & seed & data & H & Hst & Hseed & Hdata & Hsurf & _).
  { apply Nat.ltb_lt. vm_compute. reflexivity. }
  { vm_compute. reflexivity. }
  rewrite (exec_ok _ _ _ _ H). split; [exact (result_ok _ _ _ _ H)|].
  vm_compute in Hst, Hseed, Hdata.
  injection Hst as <-. injection Hseed as <-. injection Hdata as <-.
  exact Hsurf.
Defined.

(** *** X6 *)

Lemma Stroke_init_serial_number_witness :
  serials_bounded new_stroke_world /\
  dict_of new_stroke_world 0%nat !! "serial_number"
  = Some (VInt (serial_number new_stroke_world)).
Proof.
  destruct (Stroke_init_serial_number empty_world) as [H _].
  { intros o n Ho. unfold dict_of in Ho.
    change (objs empty_world) with (∅ : gmap nat (gmap string Value)) in Ho.
    rewrite lookup_empty in Ho. discriminate. }
  assert (Hrun : Stroke_init empty_world = Ok 0%nat new_stroke_world).
  { apply result_exec. vm_compute. reflexivity. }
  destruct (H _ _ Hrun) as (Hb & Hs & _). split; [exact Hb|exact Hs].
Defined.

(** *** X7 *)

Lemma strokes_from_to_compose_witness :
  strokes_from_to rendered_world (mkStruct 23%nat None) (rendered (self rendered_world))
  = Some ([11; 12; 13; 14; 15; 16] ++ [17; 18; 19; 20; 21])%nat.
Proof.
  apply (proj1 (proj2 (strokes_from_to_compose rendered_world (mkStruct 23%nat None)
                         (mkStruct 25%nat None) (rendered (self rendered_world))))).
  - vm_compute. reflexivity.
  - vm_compute. reflexivity.
Defined.

(** *** X8 *)

Lemma rerender_cost_bounds_witness :
  exists cost,
    result (rerender addr_up false) undone_world = Some cost /\
    0 <= cost /\ cost <= empty_cost undone_world.
Proof.
  destruct (succeeds_exec (rerender addr_up false) undone_world) as [cost H];
    [vm_compute; reflexivity|].
  destruct (rerender_cost_bounds _ _ _ _ _ H) as (H0 & _ & _ & H1 & _).
  exists cost. split; [exact (result_ok _ _ _ _ H)|]. split; [exact H0|].
  apply H1. vm_compute. reflexivity.
Defined.

(** *** X9 *)

Lemma rerender_never_selects_infinity_witness :
  exists cost render,
    py_min (options addr_up undone_world) = Some (cost, render) /\
    rerender addr_up false undone_world = (run (fn_code render) ;; ret cost) undone_world /\
    cost < infinity.
Proof.
  destruct (rerender_never_selects_infinity addr_up undone_world)
    as (cost & render & Hmin & Hre & Hlt & _).
  { vm_compute. reflexivity. }
  { vm_compute. reflexivity. }
  exists cost, render. split; [exact Hmin|]. split; [exact Hre|exact Hlt].
Defined.

(** *** X10 *)

Lemma rerender_idempotent_witness :
  let w' := exec (rerender addr_up false) (painted_world 5) in
  result (rerender addr_up false) (painted_world 5) = Some 5 /\
  rerender addr_up false w' = Ok 0 w' /\
  rerender addr_down true w' = Ok 0 w'.
Proof.
  cbv zeta.
  assert (H : rerender addr_up false (painted_world 5)
              = Ok 5 (exec (rerender addr_up false) (painted_world 5))).
  { apply result_exec. vm_compute. reflexivity. }
  destruct (rerender_idempotent _ _ _ _ H) as (_ & _ & Hre).
  split; [exact (result_ok _ _ _ _ H)|]. split; apply Hre.
Defined.

(** *** X11 *)

Lemma Layer_init_spec_witness :
  Layer_init (Some (@surface_new canvas)) empty_world = Raise AssertionError /\
  wf new_layer_world /\
  rerender addr_up false new_layer_world = Ok 0 new_layer_world.
Proof.
  destruct (Layer_init_spec (@empty_world canvas))
    as (H1 & w' & H & _ & _ & _ & _ & _ & _ & _ & _ & _ & _ & Hwf & Hre).
  assert (new_layer_world = w') as -> by apply (exec_ok _ _ _ _ H).
  split; [apply H1|]. split; [exact Hwf|apply Hre].
Defined.

(** *** X12 *)

Lemma rerender_unfinished_stroke_witness :
  rerender addr_up false unfinished_world = Raise AssertionError /\
  rerender addr_up true unfinished_world = Ok 1 unfinished_world.
Proof.
  apply (rerender_unfinished_stroke addr_up unfinished_world 2%nat (VBool false)).
  - vm_compute. discriminate.
  - vm_compute. reflexivity.
  - vm_compute. reflexivity.
  - reflexivity.
Defined.

(** *** X13 *)

Lemma rerender_frame_witness :
  let w' := exec (rerender addr_up false) (painted_world 5) in
  strokes (self w') = strokes (self (painted_world 5)) /\
  serial_number w' = serial_number (painted_world 5) /\
  renderable w' 2%nat = true.
Proof.
  cbv zeta.
  assert (H : rerender addr_up false (painted_world 5)
              = Ok 5 (exec (rerender addr_up false) (painted_world 5))).
  { apply result_exec. vm_compute. reflexivity. }
  assert (Hwf : wf (painted_world 5)).
  { refine (bool_decide_eq_true_1 _ _). vm_compute. reflexivity. }
  destruct (rerender_frame _ _ _ _ _ Hwf H) as (Hs & _ & _ & Hn & _ & Hr & _).
  split; [exact Hs|]. split; [exact Hn|]. apply Hr. vm_compute. reflexivity.
Defined.

(** *** X14 *)

Lemma rerender_paints_the_strokes_witness :
  let w' := exec (rerender addr_up false) undone_world in
  result (rerender addr_up false) undone_world = Some 4 /\
  coherent w' /\
  surface (self w')
  = painted undone_world (background (self undone_world)) (list_of w' (strokes (self w'))).
Proof.
  cbv zeta.
  assert (H : rerender addr_up false undone_world
              = Ok 4 (exec (rerender addr_up false) undone_world)).
  { apply result_exec. vm_compute. reflexivity. }
  assert (Hwf : wf undone_world).
  { refine (bool_decide_eq_true_1 _ _). vm_compute. reflexivity. }
  assert (Hco : coherent undone_world).
  { split; [vm_compute; reflexivity|].
    assert (caches (self undone_world)
            = [mkCache 22%nat 23%nat None (surface_save_snapshot
                 (painted undone_world None (list_of undone_world 23%nat)));
               mkCache 24%nat 25%nat None (surface_save_snapshot
                 (painted undone_world None (list_of undone_world 25%nat)))]) as ->.
    { vm_compute. reflexivity. }
    repeat constructor. }
  destruct (rerender_paints_the_strokes _ _ _ _ Hwf Hco H) as (Hc & Hs & Hp).
  split; [exact (result_ok _ _ _ _ H)|]. split; [exact Hc|].
  rewrite Hs. exact Hp.
Defined.

(** *** X15 *)

Lemma caches_hold_threshold_witness :
  caches_worth (exec (rerender addr_up false) (painted_world 8)) /\
  length (caches (self (exec (rerender addr_up false) (painted_world 8)))) = 1%nat.
Proof.
  assert (H : rerender addr_up false (painted_world 8)
              = Ok 8 (exec (rerender addr_up false) (painted_world 8))).
  { apply result_exec. vm_compute. reflexivity. }
  destruct (caches_hold_threshold (painted_world 8)) as [_ Hre].
  { refine (bool_decide_eq_true_1 _ _). vm_compute. reflexivity. }
  { unfold caches_worth.
    assert (caches (self (painted_world 8)) = []) as -> by (vm_compute; reflexivity).
    constructor. }
  split; [exact (Hre _ _ _ _ H)|]. vm_compute. reflexivity.
Defined.

(** *** X16 *)

Lemma rerender_raises_witness :
  rerender addr_up false unfinished_world = Raise AssertionError /\
  all_renderable unfinished_world = false.
Proof.
  assert (H : rerender addr_up false unfinished_world = Raise AssertionError).
  { vm_compute. reflexivity. }
  destruct (rerender_raises _ _ _ _ H) as (_ & _ & _ & H4).
  destruct H4 as [_ Hall].
  - refine (bool_decide_eq_true_1 _ _). vm_compute. reflexivity.
  - vm_compute. discriminate.
  - vm_compute. reflexivity.
  - split; [exact H|exact Hall].
Defined.

(** *** X17 *)

Lemma rerender_after_undo_witness :
  count_strokes_from undone_world (rendered (self undone_world)) = infinity /\
  exists cost render,
    py_min (options addr_up undone_world) = Some (cost, render) /\
    fn_code render <> RenderNewStrokes.
Proof.
  destruct (rerender_after_undo addr_up undone_world) as [Hc H].
  { apply Nat.ltb_lt. vm_compute. reflexivity. }
  destruct H as (cost & render & Hmin & _ & Hne); [vm_compute; reflexivity|].
  split; [exact Hc|]. exists cost, render. split; [exact Hmin|exact Hne].
Defined.

(** *** X18 *)

Lemma Stroke_render_again_witness :
  let w1 := exec (Stroke_render 0%nat) one_stroke_world in
  succeeds (Stroke_render 0%nat) one_stroke_world = true /\
  succeeds (Stroke_render 0%nat) w1 = true /\
  length (surface (self (exec (Stroke_render 0%nat) w1))) = 2%nat.
Proof.
  cbv zeta.
  assert (H : Stroke_render 0%nat one_stroke_world
              = Ok tt (exec (Stroke_render 0%nat) one_stroke_world)).
  { apply result_exec. vm_compute. reflexivity. }
  destruct (Stroke_render_again _ _ _ H) as (w2 & bs & st & seed & data & H2 & _).
  split; [exact (succeeds_ok _ _ _ _ H)|]. split; [exact (succeeds_ok _ _ _ _ H2)|].
  vm_compute. reflexivity.
Defined.

(** *** X19 *)

Lemma populate_cache_twice_witness :
  let w1 := exec populate_cache uncached_world in
  length (caches (self uncached_world)) = 0%nat /\
  length (caches (self w1)) = 1%nat /\
  populate_cache w1 = Ok tt w1.
Proof.
  cbv zeta.
  assert (H : populate_cache uncached_world = Ok tt (exec populate_cache uncached_world)).
  { apply result_exec. vm_compute. reflexivity. }
  split; [vm_compute; reflexivity|]. split; [vm_compute; reflexivity|].
  apply (populate_cache_twice uncached_world); [| |exact H].
  - refine (bool_decide_eq_true_1 _ _). vm_compute. reflexivity.
  - vm_compute. reflexivity.
Defined.

(** *** X20 *)

Lemma append_then_rerender_witness :
  let w1 := exec (append_stroke 5%nat) unappended_world in
  count_strokes_from w1 (rendered (self w1)) = 1 /\
  result (rerender addr_up false) w1 = Some 1 /\
  length (surface (self (exec (rerender addr_up false) w1))) = 4%nat.
Proof.
  cbv zeta.
  destruct (append_then_rerender addr_up unappended_world 5%nat) as (w1 & Happ & _ & H).
  { vm_compute. reflexivity. }
  rewrite (exec_ok _ _ _ _ Happ).
  destruct H as (Hc & _ & Hr); [vm_compute; discriminate|].
  destruct Hr as (w2 & H2 & Hs & _).
  - refine (bool_decide_eq_true_1 _ _). vm_compute. reflexivity.
  - vm_compute. discriminate.
  - vm_compute. reflexivity.
  - split; [exact Hc|]. split; [exact (result_ok _ _ _ _ H2)|].
    rewrite (exec_ok _ _ _ _ H2), Hs. vm_compute. reflexivity.
Defined.
